(** * labchat.edgetech: the DewMaster driver

    A shallow embedding of [src/labchat/edgetech.py] (class [DewMaster]) and
    the properties of its parser, its framed transport and its logging loop.

    Conventions of the model.
    - Text ([str]) is a [string] whose characters are the code points
      U+0000..U+00FF; on that range Python's [\d] is [0-9] and [\s] /
      [str.isspace] is the set given by [is_space].
    - Warnings ([warnings.warn]) are collected in order of emission.
    - Exceptions are values of [exn]; a computation that raises keeps the
      effects it performed before raising.
    - Time is counted in milliseconds; [sleep] advances the clock by its
      argument and the other operations take no time.
    - The instrument is a schedule of bytes and arrival times, whatever
      the driver writes.
    - The file system is a [disk] that says, at each time, whether the
      files can be written; a write that cannot be done raises.
    - A loop is followed within a budget of turns; when the budget runs
      out the computation is still running ([OutOfBudget]), it has not
      returned.
    - [KeyboardInterrupt] is not modelled: a session the operator
      interrupts is not one of the outcomes described here.
    - [print] and the methods [__init__], [open] and [close] are left
      out. *)

From Stdlib Require Import String Ascii List Bool ZArith NArith QArith Lia.
From Stdlib Require Import DecimalString.
Import ListNotations.

Local Open Scope string_scope.
Local Open Scope list_scope.

(** ** Characters *)

Definition code (c : ascii) : N := N_of_ascii c.

Definition in_range (lo hi : N) (c : ascii) : bool :=
  ((lo <=? code c) && (code c <=? hi))%N.

(** [[A-Z]] *)
Definition is_upper : ascii -> bool := in_range 65 90.

(** [\d] *)
Definition is_digit : ascii -> bool := in_range 48 57.

(** [\s], also the characters removed by [str.strip()]:
    TAB..CR, FS..US, SPACE, NEL and NBSP. *)
Definition is_space (c : ascii) : bool :=
  in_range 9 13 c || in_range 28 32 c || (code c =? 133)%N || (code c =? 160)%N.

Definition CR : ascii := ascii_of_N 13.
Definition LF : ascii := ascii_of_N 10.
Definition CRLF : string := String CR (String LF "").

(** ** Strings *)

(** [taken s rest] is the prefix of [s] that precedes its suffix [rest]. *)
Definition taken (s rest : string) : string :=
  substring 0 (String.length s - String.length rest) s.

Fixpoint lstrip (s : string) : string :=
  match s with
  | String c s' => if is_space c then lstrip s' else s
  | EmptyString => EmptyString
  end.

Fixpoint rstrip (s : string) : string :=
  match s with
  | String c s' =>
      match rstrip s' with
      | EmptyString => if is_space c then EmptyString else String c EmptyString
      | t => String c t
      end
  | EmptyString => EmptyString
  end.

(** [str.strip()] *)
Definition strip (s : string) : string := rstrip (lstrip s).

(** [str.split('\r\n')]: [cur] holds, reversed, the characters of the segment
    being read. *)
Fixpoint split_crlf_aux (s : string) (cur : list ascii) : list string :=
  match s with
  | EmptyString => [string_of_list_ascii (rev cur)]
  | String c s' =>
      match s' with
      | String c' s'' =>
          if (Ascii.eqb c CR && Ascii.eqb c' LF)%bool
          then string_of_list_ascii (rev cur) :: split_crlf_aux s'' []
          else split_crlf_aux s' (c :: cur)
      | EmptyString => [string_of_list_ascii (rev (c :: cur))]
      end
  end.

Definition split_crlf (s : string) : list string := split_crlf_aux s [].

(** ** Regular expressions ([re])

    The fragment of Python's [re] the driver uses, matched by backtracking
    in Python's priority order (alternatives left to right, quantifiers
    greedy). Repetition with [*] and [+] is over a character class, which
    is all the patterns of the driver need. *)

Module re.

Inductive regex : Type :=
| Chr (c : ascii)                    (* a literal character *)
| Lit (s : string)                   (* a literal string *)
| Cls (p : ascii -> bool)            (* a character class *)
| Cat (r1 r2 : regex)                (* r1 r2 *)
| Alt (r1 r2 : regex)                (* r1|r2 *)
| Opt (r : regex)                    (* r? *)
| Star (p : ascii -> bool)           (* [class]* *)
| Plus (p : ascii -> bool)           (* [class]+ *)
| Rep (n : nat) (r : regex)          (* r{n} *)
| Group (i : nat) (r : regex)        (* capturing group number i *)
| Eol.                               (* $ *)

(** The text last captured by each group, most recent first. *)
Definition captures := list (nat * string).

Fixpoint group (i : nat) (g : captures) : string :=
  match g with
  | [] => ""
  | (j, s) :: g' => if Nat.eqb i j then s else group i g'
  end.

Fixpoint star_k {R : Type} (p : ascii -> bool) (s : string)
  (k : string -> option R) : option R :=
  match s with
  | String c s' =>
      if p c
      then match star_k p s' k with
           | Some x => Some x
           | None => k s
           end
      else k s
  | EmptyString => k s
  end.

Fixpoint lit_k {R : Type} (l s : string) (k : string -> option R) : option R :=
  match l with
  | EmptyString => k s
  | String c l' =>
      match s with
      | String c' s' => if Ascii.eqb c c' then lit_k l' s' k else None
      | EmptyString => None
      end
  end.

(** [$] without MULTILINE: the end of the text, or just before a final
    newline. *)
Definition at_end (s : string) : bool :=
  match s with
  | EmptyString => true
  | String c EmptyString => Ascii.eqb c LF
  | _ => false
  end.

(** [mt r s g k]: match [r] at the start of [s], then continue with [k] on
    the rest of the text; the first success in priority order wins. *)
Fixpoint mt {R : Type} (r : regex) (s : string) (g : captures)
  (k : string -> captures -> option R) {struct r} : option R :=
  match r with
  | Chr c =>
      match s with
      | String c' s' => if Ascii.eqb c c' then k s' g else None
      | EmptyString => None
      end
  | Lit l => lit_k l s (fun s' => k s' g)
  | Cls p =>
      match s with
      | String c' s' => if p c' then k s' g else None
      | EmptyString => None
      end
  | Cat r1 r2 => mt r1 s g (fun s' g' => mt r2 s' g' k)
  | Alt r1 r2 =>
      match mt r1 s g k with
      | Some x => Some x
      | None => mt r2 s g k
      end
  | Opt r1 =>
      match mt r1 s g k with
      | Some x => Some x
      | None => k s g
      end
  | Star p => star_k p s (fun s' => k s' g)
  | Plus p =>
      match s with
      | String c' s' => if p c' then star_k p s' (fun s'' => k s'' g) else None
      | EmptyString => None
      end
  | Rep n r1 =>
      (fix rep (n : nat) (s : string) (g : captures) : option R :=
         match n with
         | O => k s g
         | S n' => mt r1 s g (fun s' g' => rep n' s' g')
         end) n s g
  | Group i r1 => mt r1 s g (fun s' g' => k s' ((i, taken s s') :: g'))
  | Eol => if at_end s then k s g else None
  end.

(** A match object: where the match starts, [group(0)] and the groups. *)
Record match_obj : Type := {
  m_start : nat;
  m_text : string;
  m_groups : captures
}.

(** [pattern.match(s)]: a match anchored at the start of [s]. *)
Definition match_at (r : regex) (pos : nat) (s : string) : option match_obj :=
  mt r s [] (fun rest g =>
    Some {| m_start := pos; m_text := taken s rest; m_groups := g |}).

(** [re.search(r, s)]: the leftmost match. *)
Fixpoint search_from (r : regex) (pos : nat) (s : string) : option match_obj :=
  match match_at r pos s with
  | Some m => Some m
  | None =>
      match s with
      | String _ s' => search_from r (S pos) s'
      | EmptyString => None
      end
  end.

Definition search (r : regex) (s : string) : option match_obj :=
  search_from r 0 s.

(** [re.findall(r, s)] for a pattern with two groups: the pairs
    [(group(1), group(2))] of the successive non-overlapping matches.
    [skip] counts the characters still covered by the previous match. *)
Fixpoint findall_aux (r : regex) (skip : nat) (s : string)
  : list (string * string) :=
  match skip with
  | S n =>
      match s with
      | String _ s' => findall_aux r n s'
      | EmptyString => []
      end
  | O =>
      match match_at r 0 s with
      | Some m =>
          (group 1 (m_groups m), group 2 (m_groups m)) ::
          match s with
          | String _ s' => findall_aux r (String.length (m_text m) - 1) s'
          | EmptyString => []
          end
      | None =>
          match s with
          | String _ s' => findall_aux r 0 s'
          | EmptyString => []
          end
      end
  end.

Definition findall (r : regex) (s : string) : list (string * string) :=
  findall_aux r 0 s.

End re.

Import re.

(** ** Exceptions and warnings *)

(** The [ValueError]s that reach the driver, by origin. *)
Inductive value_error : Type :=
| NoData (data_str : string)      (* '... does not appear to contain any data' *)
| BadTimestamp (text : string)    (* raised by datetime.strptime *)
| BadFloat (text : string)        (* raised by float() *)
| AverageOutOfRange               (* 'avg_num should be between 1 and 16' *)
| IntervalOutOfRange              (* 'interval should be greater than zero' *)
| BadInteger.                     (* raised by int() *)

Inductive exn : Type :=
| ValueError (why : value_error)
| TypeError
| OverflowError
| UnicodeDecodeError
| NotADirectoryError
| IOError (msg : string).

Inductive warning : Type :=
| MultipleLines        (* 'data_str has multiple lines, using the first recognized data line' *)
| NoTimestamp          (* 'Unable to identify timestamp, using local time' *)
| NoStatus             (* 'Unable to identify status of measurement' *)
| StatusIs (status : string)     (* 'Status is {0}, data may be inaccurate' *)
| ReadTimedOut         (* 'read attempt timed out' *)
| AverageNotConfirmed  (* 'Average value may not have been set properly' *)
| AverageSetTo (got : string) (want : Z)
| IntervalNotInt       (* 'interval should be an even number of seconds' *)
| IntervalNotConfirmed (* 'Interval may not have been set properly' *)
| IntervalSetTo (got : string) (want : Z).

(** ** Dates and numbers *)

Record datetime : Type := {
  year : Z; month : Z; day : Z;
  hour : Z; minute : Z; second : Z; microsecond : Z
}.

Definition digit_val (c : ascii) : Z := Z.of_N (code c) - 48.

(** [int(s)] for a text of decimal digits. *)
Fixpoint int_of_digits (s : string) (acc : Z) : Z :=
  match s with
  | EmptyString => acc
  | String c s' => int_of_digits s' (10 * acc + digit_val c)
  end.

Definition is_leap (y : Z) : bool :=
  ((y mod 4 =? 0) && (negb (y mod 100 =? 0) || (y mod 400 =? 0)))%Z.

Definition days_in_month (y m : Z) : Z :=
  if (m =? 2)%Z then (if is_leap y then 29 else 28)
  else if ((m =? 4) || (m =? 6) || (m =? 9) || (m =? 11))%Z then 30
  else 31.

(** The checks of the [datetime] constructor. *)
Definition valid_datetime (d : datetime) : bool :=
  ((1 <=? year d) && (year d <=? 9999) &&
   (1 <=? month d) && (month d <=? 12) &&
   (1 <=? day d) && (day d <=? days_in_month (year d) (month d)) &&
   (0 <=? hour d) && (hour d <=? 23) &&
   (0 <=? minute d) && (minute d <=? 59) &&
   (0 <=? second d) && (second d <=? 59))%Z.

(** The directives of [_strptime.TimeRE] used by the format
    ["%m/%d/%y %H:%M:%S"]. *)
Definition re_m : regex :=   (* 1[0-2]|0[1-9]|[1-9] *)
  Alt (Cat (Chr "1") (Cls (in_range 48 50)))
 (Alt (Cat (Chr "0") (Cls (in_range 49 57)))
      (Cls (in_range 49 57))).

Definition re_d : regex :=   (* 3[0-1]|[1-2]\d|0[1-9]|[1-9]| [1-9] *)
  Alt (Cat (Chr "3") (Cls (in_range 48 49)))
 (Alt (Cat (Cls (in_range 49 50)) (Cls is_digit))
 (Alt (Cat (Chr "0") (Cls (in_range 49 57)))
 (Alt (Cls (in_range 49 57))
      (Cat (Chr " ") (Cls (in_range 49 57)))))).

Definition re_y : regex :=   (* \d\d *)
  Cat (Cls is_digit) (Cls is_digit).

Definition re_H : regex :=   (* 2[0-3]|[0-1]\d|\d *)
  Alt (Cat (Chr "2") (Cls (in_range 48 51)))
 (Alt (Cat (Cls (in_range 48 49)) (Cls is_digit))
      (Cls is_digit)).

Definition re_M : regex :=   (* [0-5]\d|\d *)
  Alt (Cat (Cls (in_range 48 53)) (Cls is_digit)) (Cls is_digit).

Definition re_S : regex :=   (* 6[0-1]|[0-5]\d|\d *)
  Alt (Cat (Chr "6") (Cls (in_range 48 49)))
 (Alt (Cat (Cls (in_range 48 53)) (Cls is_digit))
      (Cls is_digit)).

(** The pattern [_strptime] compiles the format to; the blank of the format
    stands for [\s+]. *)
Definition strptime_re : regex :=
  Cat (Group 1 re_m) (Cat (Chr "/")
 (Cat (Group 2 re_d) (Cat (Chr "/")
 (Cat (Group 3 re_y) (Cat (Plus is_space)
 (Cat (Group 4 re_H) (Cat (Chr ":")
 (Cat (Group 5 re_M) (Cat (Chr ":")
      (Group 6 re_S)))))))))).

(** [datetime.strptime(s, "%m/%d/%y %H:%M:%S")]; [None] stands for the
    [ValueError] it raises: no match, unconverted data, or a date or time
    the [datetime] constructor rejects. *)
Definition strptime (s : string) : option datetime :=
  match mt strptime_re s [] (fun rest g => Some (rest, g)) with
  | Some (EmptyString, g) =>
      let y := int_of_digits (group 3 g) 0 in
      let d := {| year := if (y <=? 68)%Z then y + 2000 else y + 1900;
                  month := int_of_digits (group 1 g) 0;
                  day := int_of_digits (lstrip (group 2 g)) 0;
                  hour := int_of_digits (group 4 g) 0;
                  minute := int_of_digits (group 5 g) 0;
                  second := int_of_digits (group 6 g) 0;
                  microsecond := 0 |} in
      if valid_datetime d then Some d else None
  | _ => None
  end.

Fixpoint all_digits (s : string) : bool :=
  match s with
  | EmptyString => true
  | String c s' => is_digit c && all_digits s'
  end.

(** Splits at the first ['.']: the text before it and, when there is one,
    the text after it. *)
Fixpoint split_dot (s : string) : string * option string :=
  match s with
  | EmptyString => (EmptyString, None)
  | String c s' =>
      if Ascii.eqb c "." then (EmptyString, Some s')
      else let '(a, b) := split_dot s' in (String c a, b)
  end.

(** [float(s)] on a text over the digits, ['-'] and ['.']: an optional
    sign, then digits with at most one point and at least one digit.
    [None] stands for the [ValueError] raised otherwise. The value is the
    rational the literal denotes (Python keeps the nearest binary64). *)
Definition float_of_string (s : string) : option Q :=
  let '(neg, body) :=
    match s with
    | String c s' => if Ascii.eqb c "-" then (true, s') else (false, s)
    | EmptyString => (false, s)
    end in
  let '(ip, fp) := split_dot body in
  let fp := match fp with Some f => f | None => EmptyString end in
  if all_digits ip && all_digits fp &&
     negb (Nat.eqb (String.length ip + String.length fp) 0)
  then
    let scale := (10 ^ Z.of_nat (String.length fp))%Z in
    let mant := (int_of_digits ip 0 * scale + int_of_digits fp 0)%Z in
    Some (Qred (Qmake (if neg then - mant else mant) (Z.to_pos scale)))
  else None.

(** ** The measurement parser *)

(** The 4-tuple [_parse_data] returns. *)
Record reading : Type := {
  dt : datetime;
  measurements : list string;
  data : list Q;
  status : string
}.

(** [\r\n] *)
Definition re_crlf : regex := Cat (Chr CR) (Chr LF).

(** [([A-Z]+)\s+=\s+([-\d\.]+)] *)
Definition re_token : regex :=
  Cat (Group 1 (Plus is_upper))
 (Cat (Plus is_space) (Cat (Chr "=") (Cat (Plus is_space)
      (Group 2 (Plus (fun c => Ascii.eqb c "-" || is_digit c || Ascii.eqb c ".")))))).

(** [(\d\d/?){3}\s+(\d\d:?){3}] *)
Definition re_timestamp : regex :=
  Cat (Rep 3 (Group 1 (Cat (Cls is_digit) (Cat (Cls is_digit) (Opt (Chr "/"))))))
 (Cat (Plus is_space)
      (Rep 3 (Group 2 (Cat (Cls is_digit) (Cat (Cls is_digit) (Opt (Chr ":"))))))).

(** [([A-Z]+)\s*$] *)
Definition re_status : regex :=
  Cat (Group 1 (Plus is_upper)) (Cat (Star is_space) Eol).

Definition found (m : option match_obj) : bool :=
  match m with Some _ => true | None => false end.

(** The [for data_n in data_str.split('\r\n')] loop: the pattern is
    searched in [data_str], the whole text, at every turn; [None] is the
    loop's [else] branch. *)
Fixpoint select_line (segments : list string) (data_str : string)
  : option string :=
  match segments with
  | [] => None
  | data_n :: rest =>
      if found (re.search re_token data_str) then Some data_n
      else select_line rest data_str
  end.

(** The [for m in match] loop filling [measurements] and [data]. *)
Fixpoint collect (ms : list (string * string))
  (measurements : list string) (data : list Q)
  : exn + (list string * list Q) :=
  match ms with
  | [] => inr (measurements, data)
  | m :: ms' =>
      match float_of_string (snd m) with
      | Some v => collect ms' (measurements ++ [fst m]) (data ++ [v])
      | None => inl (ValueError (BadFloat (snd m)))
      end
  end.

(** [# Check for multiple lines]: the warning, and the line the rest of
    [_parse_data] works on, [None] when the loop ends through its [else]. *)
Definition check_lines (data_str : string) : list warning * option string :=
  if found (re.search re_crlf data_str)
  then ([MultipleLines], select_line (split_crlf data_str) data_str)
  else ([], Some data_str).

(** [DewMaster._parse_data]; [now] is the local time
    [datetime.fromtimestamp(time())] would give. The result carries the
    warnings emitted up to the return or the exception. *)
Definition _parse_data (now : datetime) (data_str : string)
  : list warning * (exn + reading) :=
  (* Check for multiple lines *)
  let '(w1, line) := check_lines data_str in
  match line with
  | None => (w1, inl (ValueError (NoData data_str)))
  | Some data_str =>
      (* Create datetime object *)
      let '(w2, stamp) :=
        match re.search re_timestamp data_str with
        | None => ([NoTimestamp], inr now)
        | Some m =>
            match strptime (m_text m) with
            | Some d => ([], inr d)
            | None => ([], inl (ValueError (BadTimestamp (m_text m))))
            end
        end in
      match stamp with
      | inl e => (w1 ++ w2, inl e)
      | inr dt =>
          (* Create list of measurements *)
          match re.findall re_token data_str with
          | [] => (w1 ++ w2, inl (ValueError (NoData data_str)))
          | ms =>
              match collect ms [] [] with
              | inl e => (w1 ++ w2, inl e)
              | inr (measurements, data) =>
                  (* Check status *)
                  let '(w3, status) :=
                    match re.search re_status data_str with
                    | None => ([NoStatus], "UNKNOWN")
                    | Some m =>
                        let status := group 1 (m_groups m) in
                        if String.eqb status "SERVOLOCK" then ([], status)
                        else ([StatusIs status], status)
                    end in
                  (w1 ++ w2 ++ w3,
                   inr {| dt := dt; measurements := measurements;
                          data := data; status := status |})
              end
          end
      end
  end.

(** ** Bytes and UTF-8 *)

Definition bytes := list Byte.byte.

Definition byte_of_N (n : N) : Byte.byte := byte_of_ascii (ascii_of_N n).

(** [char.encode(encoding='utf-8')] for a character up to U+00FF. *)
Definition encode_char (c : ascii) : bytes :=
  if (code c <? 128)%N then [byte_of_ascii c]
  else [byte_of_N (192 + code c / 64); byte_of_N (128 + code c mod 64)].

(** [s.encode(encoding='utf-8')] *)
Fixpoint encode (s : string) : bytes :=
  match s with
  | EmptyString => []
  | String c s' => encode_char c ++ encode s'
  end.

(** A continuation byte. *)
Definition cont (b : N) : bool := ((128 <=? b) && (b <=? 191))%N.

Definition cons_to (n : N) (r : option (list N)) : option (list N) :=
  match r with Some l => Some (n :: l) | None => None end.

(** The code points of a well-formed UTF-8 byte sequence (shortest form,
    no surrogates, at most U+10FFFF); [None] when it is ill-formed. *)
Fixpoint utf8_points (bs : list N) : option (list N) :=
  match bs with
  | [] => Some []
  | b1 :: r1 =>
      if (b1 <? 128)%N then cons_to b1 (utf8_points r1)
      else if ((194 <=? b1) && (b1 <=? 223))%N then
        match r1 with
        | b2 :: r2 =>
            if cont b2
            then cons_to ((b1 - 192) * 64 + (b2 - 128))%N (utf8_points r2)
            else None
        | _ => None
        end
      else if ((224 <=? b1) && (b1 <=? 239))%N then
        match r1 with
        | b2 :: b3 :: r3 =>
            if (cont b2 && cont b3 &&
                (negb (b1 =? 224) || (160 <=? b2)) &&
                (negb (b1 =? 237) || (b2 <=? 159)))%N
            then cons_to ((b1 - 224) * 4096 + (b2 - 128) * 64 + (b3 - 128))%N
                         (utf8_points r3)
            else None
        | _ => None
        end
      else if ((240 <=? b1) && (b1 <=? 244))%N then
        match r1 with
        | b2 :: b3 :: b4 :: r4 =>
            if (cont b2 && cont b3 && cont b4 &&
                (negb (b1 =? 240) || (144 <=? b2)) &&
                (negb (b1 =? 244) || (b2 <=? 143)))%N
            then cons_to ((b1 - 240) * 262144 + (b2 - 128) * 4096 +
                          (b3 - 128) * 64 + (b4 - 128))%N
                         (utf8_points r4)
            else None
        | _ => None
        end
      else None
  end.

Inductive decoded : Type :=
| Decoded (s : string)    (* the text *)
| Undecodable             (* UnicodeDecodeError *)
| Wide.                   (* a character above U+00FF: outside the text model *)

(** [b.decode(encoding='utf-8')] *)
Definition decode (b : bytes) : decoded :=
  match utf8_points (map Byte.to_N b) with
  | None => Undecodable
  | Some points =>
      if forallb (fun p => (p <? 256)%N) points
      then Decoded (string_of_list_ascii (map ascii_of_N points))
      else Wide
  end.

(** ** The serial link and the clock *)

(** What the driver does to [self.device], and the start of each [read()]. *)
Inductive event : Type :=
| DevWrite (b : bytes)            (* device.write(b) *)
| DevInWaiting (n : nat)          (* device.in_waiting, giving n *)
| DevRead (n : nat) (b : bytes)   (* device.read(n), giving b *)
| ReadCall.                       (* DewMaster.read() entered *)

(** The state the driver runs in. [inbound] is what the instrument sends
    and when; [in_buffer] is what has arrived and was not read yet. *)
Record world : Type := {
  clock : N;                      (* time(), in ms *)
  timeout : N;                    (* device.timeout, in ms *)
  inbound : list (N * bytes);
  in_buffer : bytes;
  trace : list event;             (* oldest first *)
  warned : list warning;          (* oldest first *)
  local_time : N -> datetime      (* datetime.fromtimestamp *)
}.

Definition with_clock (t : N) (w : world) : world :=
  {| clock := t; timeout := timeout w; inbound := inbound w;
     in_buffer := in_buffer w; trace := trace w; warned := warned w;
     local_time := local_time w |}.

Definition with_buffers (i : list (N * bytes)) (b : bytes) (w : world) : world :=
  {| clock := clock w; timeout := timeout w; inbound := i;
     in_buffer := b; trace := trace w; warned := warned w;
     local_time := local_time w |}.

Definition record (e : event) (w : world) : world :=
  {| clock := clock w; timeout := timeout w; inbound := inbound w;
     in_buffer := in_buffer w; trace := trace w ++ [e]; warned := warned w;
     local_time := local_time w |}.

Definition add_warning (x : warning) (w : world) : world :=
  {| clock := clock w; timeout := timeout w; inbound := inbound w;
     in_buffer := in_buffer w; trace := trace w; warned := warned w ++ [x];
     local_time := local_time w |}.

(** The bytes sent up to the present time reach the input buffer. *)
Definition arrive (w : world) : world :=
  let due := filter (fun p => (fst p <=? clock w)%N) (inbound w) in
  let later := filter (fun p => negb (fst p <=? clock w)%N) (inbound w) in
  with_buffers later (in_buffer w ++ concat (map snd due)) w.

(** ** Computations: state, warnings and exceptions *)

Inductive failure : Type :=
| Raise (e : exn)      (* a Python exception *)
| OutOfBudget          (* a loop of the model ran out of its budget *)
| OutOfModel.          (* text with a character above U+00FF *)

Definition M (A : Type) : Type := world -> (failure + A) * world.

Definition ret {A : Type} (a : A) : M A := fun w => (inr a, w).

Definition bind {A B : Type} (m : M A) (f : A -> M B) : M B :=
  fun w =>
    match m w with
    | (inr a, w') => f a w'
    | (inl e, w') => (inl e, w')
    end.

Definition raise {A : Type} (e : exn) : M A := fun w => (inl (Raise e), w).

Notation "x <- m ;; k" := (bind m (fun x => k))
  (at level 61, m at next level, right associativity).
Notation "m ;; k" := (bind m (fun _ => k))
  (at level 61, right associativity).

(** [warnings.warn] *)
Definition warn (x : warning) : M unit := fun w => (inr tt, add_warning x w).

(** [time()] *)
Definition time : M N := fun w => (inr (clock w), w).

(** [sleep] *)
Definition sleep (ms : N) : M unit :=
  fun w => (inr tt, with_clock (clock w + ms) w).

(** [device.in_waiting] *)
Definition in_waiting : M nat :=
  fun w =>
    let w' := arrive w in
    let n := List.length (in_buffer w') in
    (inr n, record (DevInWaiting n) w').

(** [device.read(n)], called with no more than what is waiting. *)
Definition dev_read (n : nat) : M bytes :=
  fun w =>
    let w' := arrive w in
    let b := firstn n (in_buffer w') in
    (inr b, record (DevRead n b) (with_buffers (inbound w') (skipn n (in_buffer w')) w')).

(** [device.write(b)] *)
Definition dev_write (b : bytes) : M unit :=
  fun w => (inr tt, record (DevWrite b) w).

(** ** Core communication methods *)

(** [DewMaster.flush] *)
Definition flush : M unit :=
  n <- in_waiting ;;
  if (0 <? n)%nat then (n' <- in_waiting ;; _ <- dev_read n' ;; ret tt)
  else ret tt.

(** The [while t_now < t_stop] loop of [read]: the frame and whether the
    loop ended through its [else] branch. *)
Fixpoint read_loop (budget : nat) (t_stop : N) (last_val : nat)
  : M (bytes * bool) :=
  fun w =>
    match budget with
    | O => (inl OutOfBudget, w)
    | S budget' =>
        if (clock w <? t_stop)%N then
          (now_val <- in_waiting ;;
           if ((0 <? now_val) && (now_val =? last_val))%nat
           then (out <- dev_read now_val ;; ret (out, false))
           else (sleep 50 ;; read_loop budget' t_stop now_val)) w
        else (warn ReadTimedOut ;; ret ([], true)) w
    end.

(** Turns of [read_loop] that fit in the timeout, and one to leave it. *)
Definition read_budget (w : world) : nat := S (S (N.to_nat (timeout w / 50))).

(** [out.decode(encoding='utf-8')] *)
Definition decode_text (out : bytes) : M string :=
  match decode out with
  | Decoded s => ret s
  | Undecodable => raise UnicodeDecodeError
  | Wide => fun w => (inl OutOfModel, w)
  end.

(** [DewMaster.read] *)
Definition read : M string :=
  fun w =>
    (let t_stop := (clock w + timeout w)%N in
     r <- read_loop (read_budget w) t_stop 0 ;;
     s <- decode_text (fst r) ;;
     ret (strip s)) (record ReadCall w).

(** The [for char in command] loop of [write]. *)
Fixpoint write_chars (command : string) : M unit :=
  match command with
  | EmptyString => ret tt
  | String char rest =>
      dev_write (encode_char char) ;;
      _ <- read ;;
      write_chars rest
  end.

(** [DewMaster.write] *)
Definition write (command : string) : M unit :=
  (* Send letters of command *)
  write_chars command ;;
  (* Send ENTER *)
  dev_write (encode CRLF).

(** ** Get/Set commands *)

(** An argument as the caller may pass it: an [int], or any other object,
    known here by what [int()] makes of it. *)
Inductive pyobj : Type :=
| PyInt (z : Z)
| PyOther (as_int : exn + Z).

(** [str(n)] for an [int] *)
Definition str (n : Z) : string := NilZero.string_of_int (Z.to_int n).

(** [Number of data points to average = (\d+)] *)
Definition re_average : regex :=
  Cat (Lit "Number of data points to average = ") (Group 1 (Plus is_digit)).

(** [The new serial interval is (\d+)] *)
Definition re_interval : regex :=
  Cat (Lit "The new serial interval is ") (Group 1 (Plus is_digit)).

(** [DewMaster.set_average] *)
Definition set_average (avg_num : pyobj) : M unit :=
  (* Check type *)
  avg_num <- match avg_num with
             | PyInt z => ret z
             | PyOther (inr z) => ret z
             | PyOther (inl e) => raise e
             end ;;
  if ((avg_num <? 1) || (16 <? avg_num))%Z
  then raise (ValueError AverageOutOfRange)
  else
    (* Issue average command and read output *)
    flush ;;
    write "AV" ;;
    _ <- read ;;
    write (str avg_num) ;;
    out <- read ;;
    _ <- read ;;
    (* Check output *)
    match re.search re_average out with
    | None => warn AverageNotConfirmed
    | Some m =>
        if (int_of_digits (group 1 (m_groups m)) 0 =? avg_num)%Z then ret tt
        else warn (AverageSetTo (group 1 (m_groups m)) avg_num)
    end.

(** [DewMaster.set_output_interval] *)
Definition set_output_interval (interval : pyobj) : M unit :=
  (* Check type *)
  interval <- match interval with
              | PyInt z => ret z
              | PyOther r =>
                  warn IntervalNotInt ;;
                  match r with
                  | inr z => ret z
                  | inl _ => raise TypeError
                  end
              end ;;
  if (interval <? 1)%Z
  then raise (ValueError IntervalOutOfRange)
  else
    (* Set the output interval *)
    flush ;;
    write "O" ;;
    _ <- read ;;
    write (str interval) ;;
    out <- read ;;
    _ <- read ;;
    (* Check output *)
    match re.search re_interval out with
    | None => warn IntervalNotConfirmed
    | Some m =>
        if (int_of_digits (group 1 (m_groups m)) 0 =? interval)%Z then ret tt
        else warn (IntervalSetTo (group 1 (m_groups m)) interval)
    end.

(** ** Data collection *)

(** [_parse_data] run in the world: its warnings are emitted, its exception
    raised. *)
Definition parse_data (data_str : string) : M reading :=
  fun w =>
    let '(ws, r) := _parse_data (local_time w (clock w)) data_str in
    let w' := fold_left (fun w x => add_warning x w) ws w in
    match r with
    | inr x => (inr x, w')
    | inl e => (inl (Raise e), w')
    end.

(** [DewMaster.get_data_immediate] *)
Definition get_data_immediate (return_raw : bool) : M (string + reading) :=
  (* Write polling command and get data *)
  flush ;;
  write "P" ;;
  out <- read ;;
  _ <- read ;;
  if return_raw then ret (inl out)
  else (r <- parse_data out ;; ret (inr r)).

(** The [try: ... except ValueError: pass] around [_parse_data]. *)
Definition try_parse (d : string) : M (option reading) :=
  fun w =>
    match parse_data d w with
    | (inr x, w') => (inr (Some x), w')
    | (inl (Raise (ValueError _)), w') => (inr None, w')
    | (inl e, w') => (inl e, w')
    end.

(** The [for d in raw_data] loop appending to [acc]. *)
Fixpoint parse_each (raw_data : list string) (acc : list reading)
  : M (list reading) :=
  match raw_data with
  | [] => ret acc
  | d :: rest =>
      r <- try_parse d ;;
      parse_each rest (match r with Some x => acc ++ [x] | None => acc end)
  end.

(** One turn of either loop of [log_data] up to the parsed readings:
    [sleep(interval)], [read()], split and parse. *)
Definition poll (interval : Z) : M (list reading) :=
  sleep (Z.to_N (1000 * interval)) ;;
  frame <- read ;;
  parse_each (split_crlf frame) [].

(** A line of the .csv file; the rendering of its fields is not modelled. *)
Inductive csv_line : Type :=
| CsvHeader (names : list string)
| CsvRow (stamp : datetime) (values : list Q) (state : string).

Definition csv_rows (ds : list reading) : list csv_line :=
  map (fun d => CsvRow (dt d) (data d) (status d)) ds.

(** The variables of [log_data] once the files exist: [data], [tries] and
    the contents of the two files. *)
Record session : Type := {
  s_data : list reading;
  s_tries : nat;
  npy : list reading;
  csv : list csv_line
}.

Definition no_data_yet : string := "unable to get data from instrument".
Definition no_data_4_tries : string := "No data received for 4 tries in a row".

(** The end of a turn of the [while not data] loop, [data] already holding
    what the turn parsed. *)
Definition prime_step (data : list reading) (tries : nat)
  : exn + (list reading * nat) :=
  if (2 <? tries)%nat then inl (IOError no_data_yet)
  else inr (data, S tries).

(** [# Start the files] *)
Definition start_files (data : list reading) (tries : nat) : session :=
  {| s_data := data; s_tries := tries; npy := data;
     csv := CsvHeader (match data with d0 :: _ => measurements d0 | [] => [] end)
            :: csv_rows data |}.

(** The end of a turn of the [while go_cond] loop: [# Write data to files]. *)
Definition collect_step (s : session) (data_n : list reading) : exn + session :=
  match data_n with
  | _ :: _ =>
      inr {| s_data := s_data s ++ data_n; s_tries := 0;
             npy := s_data s ++ data_n; csv := csv s ++ csv_rows data_n |}
  | [] =>
      if (3 <? s_tries s)%nat then inl (IOError no_data_4_tries)
      else inr {| s_data := s_data s; s_tries := S (s_tries s);
                  npy := npy s; csv := csv s |}
  end.

(** The [while not data] loop. It runs at most four turns. *)
Fixpoint priming (budget : nat) (interval : Z) (data : list reading) (tries : nat)
  : M (list reading * nat) :=
  match data with
  | _ :: _ => ret (data, tries)
  | [] =>
      match budget with
      | O => fun w => (inl OutOfBudget, w)
      | S budget' =>
          data_n <- poll interval ;;
          match prime_step (data ++ data_n) tries with
          | inl e => raise e
          | inr (data', tries') => priming budget' interval data' tries'
          end
      end
  end.

(** The file system as [log_data] meets it: at time [t] the files can be
    written when [disk t] is [None]; otherwise the operation raises an
    [OSError], which Python 3 also calls [IOError], with that message. *)
Definition disk : Type := N -> option string.

(** [save(npy_flnm, data)] and the [open] and [write] on the .csv file.
    What the session holds as [npy] and [csv] is what they wrote; what is
    left on the disk when they raise is not modelled. *)
Definition write_files (d : disk) : M unit :=
  fun w =>
    match d (clock w) with
    | None => (inr tt, w)
    | Some msg => (inl (Raise (IOError msg)), w)
    end.

(** The [while go_cond] loop, followed for at most [ticks] turns. With
    [total=None] the loop never returns: it ends by an exception only,
    and a budget that runs out leaves it running. The operator's
    [KeyboardInterrupt] is not modelled. *)
Fixpoint collecting (ticks : nat) (d : disk) (interval : Z) (t_stop : option N)
  (s : session) : M session :=
  match ticks with
  | O => fun w => (inl OutOfBudget, w)
  | S ticks' =>
      data_n <- poll interval ;;
      match collect_step s data_n with
      | inl e => raise e
      | inr s' =>
          (* Write data to files *)
          match data_n with
          | [] => ret tt
          | _ :: _ => write_files d
          end ;;
          match t_stop with
          | None => collecting ticks' d interval t_stop s'
          | Some t =>
              now <- time ;;
              if (now <? t)%N then collecting ticks' d interval t_stop s'
              else ret s'
          end
      end
  end.

(** [DewMaster.log_data]; [dir_exists] is what [os.path.exists] says of the
    directory of [filename], [d] is the disk. *)
Definition log_data (d : disk) (dir_exists : bool) (interval : Z)
  (total : option Z) (ticks : nat) : M session :=
  (* Check path and create filenames *)
  if negb dir_exists then raise NotADirectoryError
  else
    (* Start the data output from the DewMaster *)
    set_output_interval (PyInt interval) ;;
    (* Get the first data points *)
    p <- priming 4 interval [] 0 ;;
    (* Start the files *)
    write_files d ;;
    let s := start_files (fst p) (snd p) in
    (* Start the data collection loop *)
    t_stop <- match total with
              | None => ret None
              | Some total => (now <- time ;; ret (Some (now + Z.to_N (1000 * total))%N))
              end ;;
    collecting ticks d interval t_stop s.

(** ** The logger as a state machine

    The states of a logging session and its move on the readings
    [data_n] one polling turn yields. *)
Inductive phase : Type :=
| Priming (tries : nat)
| Collecting (s : session)
| Stopped (e : exn).

Definition tick (p : phase) (data_n : list reading) : phase :=
  match p with
  | Priming tries =>
      match prime_step data_n tries with
      | inl e => Stopped e
      | inr ([], tries') => Priming tries'
      | inr (data, tries') => Collecting (start_files data tries')
      end
  | Collecting s =>
      match collect_step s data_n with
      | inl e => Stopped e
      | inr s' => Collecting s'
      end
  | Stopped e => Stopped e
  end.

Definition run (p : phase) (yields : list (list reading)) : phase :=
  fold_left tick yields p.

(** ** The status report *)

(** [s.replace(old, new)] for a non-empty [old]: the occurrences of [old]
    are taken from left to right and do not overlap. [skip] counts the
    characters still covered by the occurrence just replaced. *)
Fixpoint replace_aux (old new : string) (skip : nat) (s : string) : string :=
  match skip with
  | S n =>
      match s with
      | String _ s' => replace_aux old new n s'
      | EmptyString => EmptyString
      end
  | O =>
      match s with
      | EmptyString => EmptyString
      | String c s' =>
          if String.prefix old s
          then new ++ replace_aux old new (String.length old - 1) s'
          else String c (replace_aux old new 0 s')
      end
  end.

Definition replace (old new s : string) : string := replace_aux old new 0 s.

Definition press_enter : string := "Press ENTER to continue.....".

(** [DewMaster.get_status]; the printing is left out. *)
Definition get_status (print_status : bool) : M string :=
  (* Read system status *)
  flush ;;
  write "ST" ;;
  out <- read ;;
  (* Send enter and read poll output *)
  write "" ;;
  _ <- read ;;
  _ <- read ;;
  (* Format printout and print *)
  ret (replace press_enter "" (replace (String CR "") "" out)).

(** ** Notions and examples used in the statements *)

Definition sample_line : string :=
  "08/15/22 14:30:05  DEWPT = -40.25  SERVOLOCK".

Definition two_segments : string := "INPUT: P" ++ CRLF ++ sample_line.

Definition sample_reading : reading :=
  {| dt := {| year := 2022; month := 8; day := 15;
              hour := 14; minute := 30; second := 5; microsecond := 0 |};
     measurements := ["DEWPT"];
     data := [Qred (-40.25)];
     status := "SERVOLOCK" |}.

Definition noon : datetime :=
  {| year := 2024; month := 1; day := 1;
     hour := 12; minute := 0; second := 0; microsecond := 0 |}.

Definition midnight : datetime :=
  {| year := 2024; month := 1; day := 2;
     hour := 0; minute := 0; second := 0; microsecond := 0 |}.

(** What the spec asks of the multi-line step: the first segment that
    itself holds a token. *)
Definition first_qualifying (segments : list string) : option string :=
  find (fun seg => found (re.search re_token seg)) segments.

(** The text matched by the timestamp pattern, when there is one, is a
    date and time [strptime] accepts. *)
Definition stamp_ok (line : string) : bool :=
  match re.search re_timestamp line with
  | None => true
  | Some m => match strptime (m_text m) with Some _ => true | None => false end
  end.

(** Every value matched by the token pattern is a literal [float] accepts. *)
Definition values_ok (line : string) : bool :=
  forallb (fun m => match float_of_string (snd m) with
                    | Some _ => true | None => false end)
          (re.findall re_token line).

Definition well_formed (s : string) : bool :=
  match snd (check_lines s) with
  | None => true
  | Some line => stamp_ok line && values_ok line
  end.

Definition glued_stamp : string := "081522 143005  DEWPT = -40.25  SERVOLOCK".
Definition bare_token : string := "DEWPT = 1.5 ".

Definition clockless_line : string := "DEWPT = 1.5 SERVOLOCK".

(** A result without its timestamp. *)
Definition untimed (o : exn + reading)
  : exn + (list string * list Q * string) :=
  match o with
  | inl e => inl e
  | inr r => inr (measurements r, data r, status r)
  end.

(** The integer an argument stands for, when [int()] gives one. *)
Definition int_value (a : pyobj) : option Z :=
  match a with
  | PyInt z => Some z
  | PyOther (inr z) => Some z
  | PyOther (inl _) => None
  end.

(** Nothing was written, read, polled or waited for between [w] and [w']. *)
Definition untouched (w w' : world) : Prop :=
  trace w' = trace w /\ in_buffer w' = in_buffer w /\
  inbound w' = inbound w /\ clock w' = clock w.

Definition idle_world : world :=
  {| clock := 0; timeout := 200; inbound := []; in_buffer := [];
     trace := []; warned := []; local_time := fun _ => noon |}.

Definition starved : exn := IOError no_data_4_tries.
Definition no_response : exn := IOError no_data_yet.

Definition fresh_session : session :=
  start_files [sample_reading] 0.

Definition set_tries (n : nat) (s : session) : session :=
  {| s_data := s_data s; s_tries := n; npy := npy s; csv := csv s |}.

(** Seven-bit bytes: what an ASCII terminal device sends. *)
Definition ascii_bytes (b : bytes) : bool :=
  forallb (fun x => (Byte.to_N x <? 128)%N) b.

(** All the instrument has sent and will send is seven-bit. *)
Definition ascii_link (w : world) : bool :=
  ascii_bytes (in_buffer w) && forallb (fun p => ascii_bytes (snd p)) (inbound w).

(** Polls of the buffer, then at most one read of the device. *)
Fixpoint polls_then_read (l : list event) : bool :=
  match l with
  | [] => true
  | DevInWaiting _ :: l' => polls_then_read l'
  | [DevRead _ _] => true
  | _ => false
  end.

(** The counts the successive polls of [in_waiting] gave. *)
Fixpoint poll_counts (l : list event) : list nat :=
  match l with
  | [] => []
  | DevInWaiting n :: l' => n :: poll_counts l'
  | _ :: l' => poll_counts l'
  end.

(** Some poll gave a count above zero that equals the count before it;
    [last_val] is the count before the first poll. *)
Fixpoint stable (last_val : nat) (counts : list nat) : bool :=
  match counts with
  | [] => false
  | n :: rest => ((0 <? n) && (n =? last_val))%nat || stable n rest
  end.

(** The events of one [read()]. *)
Definition one_read (l : list event) : bool :=
  match l with
  | ReadCall :: l' => polls_then_read l'
  | _ => false
  end.

(** The events of [write(command)]: each character written alone and
    followed by one [read()], then the terminator in one write. *)
Inductive write_trace : string -> list event -> Prop :=
| wt_enter : write_trace "" [DevWrite (encode CRLF)]
| wt_char c command cycle tr :
    one_read cycle = true ->
    write_trace command tr ->
    write_trace (String c command) (DevWrite (encode_char c) :: cycle ++ tr).






(** The counter after the ticks [yields], when none stops the session:
    an empty tick adds one, a tick with a reading puts it back to zero. *)
Fixpoint counter_after (c : nat) (yields : list (list reading)) : nat :=
  match yields with
  | [] => c
  | [] :: ys => counter_after (S c) ys
  | (_ :: _) :: ys => counter_after 0 ys
  end.

(** The most empty ticks in a row along [yields], the [c] the counter
    already holds counted with the first ones. *)
Fixpoint longest_empty_run (c : nat) (yields : list (list reading)) : nat :=
  match yields with
  | [] => c
  | [] :: ys => longest_empty_run (S c) ys
  | (_ :: _) :: ys => Nat.max c (longest_empty_run 0 ys)
  end.

(** A byte that is no UTF-8 waits in the buffer. *)
Definition garbled_world : world :=
  {| clock := 0; timeout := 200; inbound := []; in_buffer := [Byte.xff];
     trace := []; warned := []; local_time := fun _ => noon |}.

(** The instrument answers the poll command with a data line. *)
Definition polling_world : world :=
  {| clock := 0; timeout := 200;
     inbound := [(250%N, encode sample_line)]; in_buffer := [];
     trace := []; warned := []; local_time := fun _ => noon |}.



(** The world after [n] polls at an interval of one second. *)
Fixpoint polled (n : nat) (w : world) : world :=
  match n with
  | O => w
  | S n' => snd (poll 1 (polled n' w))
  end.

(** A disk that never refuses. *)
Definition sound_disk : disk := fun _ => None.

Definition late_line_world : world :=
  {| clock := 0; timeout := 200;
     inbound := [(4300%N, encode sample_line)]; in_buffer := [];
     trace := []; warned := []; local_time := fun _ => noon |}.

Definition echo_world : world :=
  {| clock := 0; timeout := 200;
     inbound := [(10%N, encode "INPUT: P")]; in_buffer := [];
     trace := []; warned := []; local_time := fun _ => noon |}.

(** *** Notions for the further properties *)

(** The bytes written to the device, in order. *)
Fixpoint written (tr : list event) : bytes :=
  match tr with
  | [] => []
  | DevWrite b :: tr' => b ++ written tr'
  | _ :: tr' => written tr'
  end.

(** On a seven-bit link [m] returns, and what it writes to the device is
    [b]. *)
Definition sends {A : Type} (m : M A) (b : bytes) : Prop :=
  forall w, ascii_link w = true ->
    exists a w', m w = (inr a, w') /\ ascii_link w' = true /\
                 written (trace w') = written (trace w) ++ b.

(** Every character of [s] is in the class [p]. *)
Fixpoint all_in (p : ascii -> bool) (s : string) : bool :=
  match s with
  | EmptyString => true
  | String c s' => p c && all_in p s'
  end.

(** No carriage return is followed by a line feed. *)
Fixpoint crlf_free (s : string) : bool :=
  match s with
  | String c s' =>
      match s' with
      | String c' _ => negb (Ascii.eqb c CR && Ascii.eqb c' LF) && crlf_free s'
      | EmptyString => true
      end
  | EmptyString => true
  end.

(** The header line [log_data] writes for [data]. *)
Definition header_of (data : list reading) : csv_line :=
  CsvHeader (match data with d0 :: _ => measurements d0 | [] => [] end).

(** The two files hold the whole history, which is not empty. *)
Definition files_hold_history (s : session) : Prop :=
  s_data s <> [] /\ npy s = s_data s /\
  csv s = header_of (s_data s) :: csv_rows (s_data s).

(** A warning about the status of a measurement. *)
Definition status_warning (x : warning) : bool :=
  match x with
  | NoStatus | StatusIs _ => true
  | _ => false
  end.

Definition answering_world : world :=
  {| clock := 0; timeout := 200;
     inbound := [(1100%N, encode sample_line)]; in_buffer := encode "stale";
     trace := []; warned := []; local_time := fun _ => noon |}.

(** The reading of a segment that parses, as [log_data] keeps it. *)
Definition parsed (now : datetime) (seg : string) : list reading :=
  match snd (_parse_data now seg) with
  | inr r => [r]
  | inl _ => []
  end.

(** [w'] differs from [w] by warnings at most. *)
Definition same_but_warnings (w w' : world) : Prop :=
  clock w' = clock w /\ timeout w' = timeout w /\ inbound w' = inbound w /\
  in_buffer w' = in_buffer w /\ trace w' = trace w /\
  local_time w' = local_time w.

(** Any character but the carriage return. *)
Definition not_cr (c : ascii) : bool := negb (Ascii.eqb c CR).

(** The instrument sends one data line in time for the first priming
    turn and one in time for the first collecting turn. *)
Definition two_lines_world : world :=
  {| clock := 0; timeout := 200;
     inbound := [(1900%N, encode sample_line); (3000%N, encode sample_line)];
     in_buffer := []; trace := []; warned := [];
     local_time := fun _ => noon |}.

(** The budget of a loop of the model ran out: the loop is still
    running. *)
Definition ran_out {A : Type} (r : failure + A) : bool :=
  match r with
  | inl OutOfBudget => true
  | _ => false
  end.

(** [m] ends, by a return or an exception, within the budgets given to
    its loops. *)
Definition ends {A : Type} (m : M A) : Prop :=
  forall w, ran_out (fst (m w)) = false.

(** * Properties *)

(** ** The parser *)

Lemma select_line_first segments data_str :
  found (re.search re_token data_str) = true ->
  select_line segments data_str = hd_error segments.
Proof.
  intros H. destruct segments as [|seg rest]; simpl; [reflexivity|].
  now rewrite H.
Qed.

Lemma select_line_none segments data_str :
  found (re.search re_token data_str) = false ->
  select_line segments data_str = None.
Proof.
  intros H. induction segments as [|seg rest IH]; simpl; [reflexivity|].
  now rewrite H.
Qed.

(** A text of several lines that holds a token anywhere is reduced to its
    first segment, whether or not the token is there. *)
Lemma check_lines_takes_first s :
  found (re.search re_crlf s) = true ->
  found (re.search re_token s) = true ->
  check_lines s = ([MultipleLines], hd_error (split_crlf s)).
Proof.
  intros Hc Ht. unfold check_lines. rewrite Hc.
  now rewrite select_line_first.
Qed.

(** C1 (what the code does at the failing input): of the two segments of
    [two_segments] only the second holds a token, and alone it parses to a
    reading; the spec's rule selects it, but [_parse_data] keeps the first
    segment and fails with NoData. *)
Theorem parse_keeps_first_segment :
  split_crlf two_segments = ["INPUT: P"; sample_line] /\
  first_qualifying (split_crlf two_segments) = Some sample_line /\
  snd (check_lines two_segments) = Some "INPUT: P" /\
  (forall now,
     _parse_data now two_segments =
       ([MultipleLines; NoTimestamp], inl (ValueError (NoData "INPUT: P")))) /\
  (forall now, exists r, _parse_data now sample_line = ([], inr r)).
Proof.
  repeat split; try (intros now; vm_compute; eauto).
Qed.

(** C6: the reading of the sample line, with no warning. *)
Theorem parse_sample_line now :
  _parse_data now sample_line = ([], inr sample_reading) /\
  dt sample_reading =
    {| year := 2022; month := 8; day := 15;
       hour := 14; minute := 30; second := 5; microsecond := 0 |} /\
  measurements sample_reading = ["DEWPT"] /\
  Forall2 Qeq (data sample_reading) [(-40.25)%Q] /\
  status sample_reading = "SERVOLOCK".
Proof.
  repeat split; try (vm_compute; reflexivity).
  repeat constructor.
Qed.

Lemma collect_spec ms : forall names vals names' vals',
  collect ms names vals = inr (names', vals') ->
  names' = names ++ map fst ms /\
  map Some vals' = map Some vals ++ map (fun m => float_of_string (snd m)) ms.
Proof.
  induction ms as [|m ms IH]; simpl; intros names vals names' vals' H.
  - inversion H; subst. now rewrite !app_nil_r.
  - destruct (float_of_string (snd m)) as [v|] eqn:Hv; [|discriminate].
    apply IH in H. destruct H as [Hn Hd]. split.
    + now rewrite Hn, <- app_assoc.
    + rewrite Hd, map_app, <- app_assoc. reflexivity.
Qed.

Lemma collect_fails ms : forall names vals e,
  collect ms names vals = inl e ->
  exists m, In m ms /\ float_of_string (snd m) = None /\
            e = ValueError (BadFloat (snd m)).
Proof.
  induction ms as [|m ms IH]; simpl; intros names vals e H; [discriminate|].
  destruct (float_of_string (snd m)) eqn:Hv.
  - apply IH in H. destruct H as (m' & Hin & H). exists m'. auto.
  - inversion H; subst. exists m. auto.
Qed.

Lemma same_length {A B C : Type} (f : A -> B) (g : A -> option C)
  (xs : list B) (ys : list C) (ts : list A) :
  xs = map f ts -> map Some ys = map g ts ->
  List.length xs = List.length ys.
Proof.
  intros Hx Hy. apply (f_equal (@List.length _)) in Hy.
  rewrite !length_map in Hy. now rewrite Hx, length_map.
Qed.

(** C7: in a reading [_parse_data] returns, the names and the values are
    as many, and the i-th name and the i-th value come from the i-th token
    of the parsed line. *)
Theorem parse_names_values_aligned now s w r :
  _parse_data now s = (w, inr r) ->
  List.length (measurements r) = List.length (data r) /\
  exists line,
    snd (check_lines s) = Some line /\
    measurements r = map fst (re.findall re_token line) /\
    map Some (data r) =
      map (fun m => float_of_string (snd m)) (re.findall re_token line).
Proof.
  unfold _parse_data. destruct (check_lines s) as [w1 [line|]]; [|discriminate].
  destruct (match re.search re_timestamp line with
            | Some m => _ | None => _ end) as [w2 [e|stamp]]; [discriminate|].
  destruct (re.findall re_token line) as [|t ts] eqn:Hts; [discriminate|].
  destruct (collect (t :: ts) [] []) as [e|[names vals]] eqn:Hc; [discriminate|].
  apply collect_spec in Hc. destruct Hc as [Hn Hd]. simpl app in Hn, Hd.
  destruct (match re.search re_status line with
            | Some m => _ | None => _ end) as [w3 st].
  intros H. inversion H; clear H. simpl. split.
  - exact (same_length fst (fun m => float_of_string (snd m))
             names vals (t :: ts) Hn Hd).
  - exists line. rewrite Hts. auto.
Qed.

Lemma parse_names_values_aligned_witness :
  _parse_data noon sample_line = ([], inr sample_reading) /\
  List.length (measurements sample_reading) = List.length (data sample_reading) /\
  exists line,
    snd (check_lines sample_line) = Some line /\
    measurements sample_reading = map fst (re.findall re_token line) /\
    map Some (data sample_reading) =
      map (fun m => float_of_string (snd m)) (re.findall re_token line).
Proof.
  split; [vm_compute; reflexivity|].
  apply (parse_names_values_aligned noon sample_line [] sample_reading).
  vm_compute. reflexivity.
Defined.

(** C4 (counterexample): on [glued_stamp], whose timestamp has no
    separators, [_parse_data] raises the [ValueError] of [strptime], which
    is not NoData, although the line holds a token. *)
Lemma parse_other_failure :
  ~ (forall now s w e,
       _parse_data now s = (w, inl e) -> exists t, e = ValueError (NoData t)).
Proof.
  intros H.
  destruct (H noon glued_stamp [] (ValueError (BadTimestamp "081522 143005")))
    as [t Ht]; [vm_compute; reflexivity | discriminate].
Qed.

Lemma collect_succeeds ms names vals :
  forallb (fun m => match float_of_string (snd m) with
                    | Some _ => true | None => false end) ms = true ->
  exists r, collect ms names vals = inr r.
Proof.
  intros Hok. destruct (collect ms names vals) as [e|r] eqn:Hc; [|eauto].
  apply collect_fails in Hc. destruct Hc as (m & Hin & Hnone & _).
  rewrite forallb_forall in Hok. specialize (Hok m Hin).
  rewrite Hnone in Hok. discriminate.
Qed.

(** C4 (amended): when the text matched by the timestamp pattern, if any,
    is a valid date and time and every matched value is a valid literal,
    [_parse_data] either fails with NoData, the parsed line holding no
    token, or returns a reading, in which a missing timestamp is replaced
    by the local time and a missing status by UNKNOWN, each with its
    warning. *)
Theorem parse_fails_only_with_no_data now s :
  well_formed s = true ->
  (exists w t,
     _parse_data now s = (w, inl (ValueError (NoData t))) /\
     match snd (check_lines s) with
     | Some line => re.findall re_token line = []
     | None => True
     end) \/
  (exists w r line,
     _parse_data now s = (w, inr r) /\
     snd (check_lines s) = Some line /\
     re.findall re_token line <> [] /\
     (re.search re_timestamp line = None -> dt r = now /\ In NoTimestamp w) /\
     (re.search re_status line = None ->
        status r = "UNKNOWN" /\ In NoStatus w)).
Proof.
  unfold well_formed, _parse_data, stamp_ok, values_ok.
  destruct (check_lines s) as [w1 [line|]]; simpl snd; [|left; eauto].
  intros Hwf. apply andb_true_iff in Hwf. destruct Hwf as [Hts Hvs].
  destruct (re.findall re_token line) as [|t ts] eqn:Hfa.
  - left. destruct (re.search re_timestamp line) as [m|];
      [destruct (strptime (m_text m)); [|discriminate]|]; eauto.
  - right. destruct (collect_succeeds (t :: ts) [] [] Hvs) as [[names vals] Hc].
    rewrite Hc.
    destruct (re.search re_timestamp line) as [m|] eqn:Hm;
      [destruct (strptime (m_text m)); [|discriminate]|];
      (destruct (re.search re_status line) as [ms|] eqn:Hst;
       [destruct (String.eqb _ _)|]);
      do 3 eexists; (split; [reflexivity|]); simpl;
      repeat split;
      first [congruence | apply in_or_app; right; simpl; tauto].
Qed.

Lemma parse_fails_only_with_no_data_witness :
  well_formed bare_token = true /\
  exists w r,
    _parse_data noon bare_token = (w, inr r) /\
    dt r = noon /\ status r = "UNKNOWN" /\ w = [NoTimestamp; NoStatus].
Proof.
  split; [vm_compute; reflexivity|].
  destruct (parse_fails_only_with_no_data noon bare_token)
    as [(w & t & H & _)|(w & r & line & H & _)];
    [vm_compute; reflexivity | vm_compute in H; discriminate | ].
  vm_compute in H. inversion H; subst. do 2 eexists.
  split; [vm_compute; reflexivity|]. repeat split.
Defined.

(** C5 (counterexample): the same text parsed at two times gives two
    readings. *)
Lemma parse_depends_on_clock :
  _parse_data noon clockless_line <> _parse_data midnight clockless_line.
Proof. vm_compute. discriminate. Qed.

(** C5 (amended): two calls on the same text give the same warnings, the
    same failure or the same names, values and status; they give the same
    timestamp too, unless the text has none and the local time is used,
    which the NoTimestamp warning tells. *)
Theorem parse_deterministic_up_to_clock now1 now2 s :
  fst (_parse_data now1 s) = fst (_parse_data now2 s) /\
  untimed (snd (_parse_data now1 s)) = untimed (snd (_parse_data now2 s)) /\
  (In NoTimestamp (fst (_parse_data now1 s)) \/
   _parse_data now1 s = _parse_data now2 s).
Proof.
  unfold _parse_data.
  destruct (check_lines s) as [w1 [line|]]; [|simpl; auto].
  destruct (re.search re_timestamp line) as [m|].
  - repeat split; auto.
  - destruct (re.findall re_token line) as [|t ts];
      [simpl; repeat split; auto; left; apply in_or_app; simpl; tauto|].
    destruct (collect (t :: ts) [] []) as [e|[names vals]];
      [simpl; repeat split; auto; left; apply in_or_app; simpl; tauto|].
    destruct (re.search re_status line) as [ms|];
      [destruct (String.eqb _ _)|];
      simpl; repeat split; auto; left;
      apply in_or_app; right; simpl; tauto.
Qed.

(** ** The command helpers *)

(** C8: an averaging count outside 1..16 and an interval below 1 are
    refused with a ValueError, and up to that point the serial stream has
    not been touched: no write, no read, no poll of the buffer. *)
Theorem rejected_before_io w avg_num interval a i :
  int_value avg_num = Some a -> (a < 1 \/ 16 < a)%Z ->
  int_value interval = Some i -> (i < 1)%Z ->
  (fst (set_average avg_num w) = inl (Raise (ValueError AverageOutOfRange)) /\
   snd (set_average avg_num w) = w) /\
  (fst (set_output_interval interval w) =
     inl (Raise (ValueError IntervalOutOfRange)) /\
   untouched w (snd (set_output_interval interval w))).
Proof.
  intros Ha Hra Hi Hri. split.
  - assert (Hb : ((a <? 1) || (16 <? a))%Z = true).
    { apply orb_true_iff. destruct Hra; [left|right]; now apply Z.ltb_lt. }
    unfold set_average, bind.
    destruct avg_num as [z|[e|z]]; simpl in Ha; inversion Ha; subst;
      unfold ret; cbv beta iota; rewrite Hb; split; reflexivity.
  - assert (Hb : (i <? 1)%Z = true) by now apply Z.ltb_lt.
    unfold set_output_interval, bind.
    destruct interval as [z|[e|z]]; simpl in Hi; inversion Hi; subst;
      unfold ret, warn; cbv beta iota; rewrite Hb;
      repeat split; reflexivity.
Qed.

Lemma rejected_before_io_witness :
  (fst (set_average (PyInt 17) idle_world) =
     inl (Raise (ValueError AverageOutOfRange)) /\
   snd (set_average (PyInt 17) idle_world) = idle_world) /\
  (fst (set_output_interval (PyOther (inr 0%Z)) idle_world) =
     inl (Raise (ValueError IntervalOutOfRange)) /\
   untouched idle_world (snd (set_output_interval (PyOther (inr 0%Z)) idle_world))).
Proof.
  apply (rejected_before_io idle_world (PyInt 17) (PyOther (inr 0%Z)) 17 0);
    [reflexivity | right; lia | reflexivity | lia].
Defined.

(** ** The logger *)

(** C3 (counterexample): after three polling turns without a reading the
    session is still priming; it has not stopped. *)
Lemma three_empty_turns_still_priming :
  run (Priming 0) [[]; []; []] = Priming 3 /\
  run (Priming 0) [[]; []; []] <> Stopped no_response.
Proof. split; [reflexivity | discriminate]. Qed.

(** The fourth turn of priming ends in the error whatever it parsed. *)
Lemma fourth_turn_always_fails data_n :
  tick (Priming 3) data_n = Stopped no_response.
Proof. reflexivity. Qed.

(** C2 (counterexample): three empty ticks in a row, counted from zero, do
    not stop a collecting session. *)
Lemma three_empty_ticks_still_collecting :
  ~ (forall s, run (Collecting s) [[]; []; []] = Stopped starved).
Proof.
  intros H. specialize (H fresh_session). discriminate.
Qed.

Lemma run_stopped e yields : run (Stopped e) yields = Stopped e.
Proof. induction yields as [|y ys IH]; [reflexivity | exact IH]. Qed.

(** Where a run of empty ticks leaves a collecting session. *)
Lemma empty_run k : forall s,
  (s_tries s <= 4)%nat ->
  run (Collecting s) (repeat [] k) =
    if (s_tries s + k <=? 4)%nat
    then Collecting (set_tries (s_tries s + k) s)
    else Stopped starved.
Proof.
  induction k as [|k IH]; intros s Hs.
  - rewrite Nat.add_0_r. apply Nat.leb_le in Hs. rewrite Hs.
    now destruct s.
  - cbn [repeat]. change (run (Collecting s) ([] :: repeat [] k))
      with (run (tick (Collecting s) []) (repeat [] k)).
    cbn [tick collect_step]. destruct (3 <? s_tries s)%nat eqn:H3.
    + apply Nat.ltb_lt in H3. rewrite run_stopped.
      assert (H : (s_tries s + S k <=? 4)%nat = false)
        by (apply Nat.leb_gt; lia).
      now rewrite H.
    + apply Nat.ltb_ge in H3.
      change {| s_data := s_data s; s_tries := S (s_tries s);
                npy := npy s; csv := csv s |}
        with (set_tries (S (s_tries s)) s).
      rewrite IH by (simpl; lia). cbn [s_tries set_tries].
      now rewrite Nat.add_succ_r.
Qed.

Lemma longest_empty_run_ge yields : forall c, (c <= longest_empty_run c yields)%nat.
Proof.
  induction yields as [|y ys IH]; intros c; [apply Nat.le_refl|].
  destruct y; cbn [longest_empty_run]; [|apply Nat.le_max_l].
  specialize (IH (S c)). lia.
Qed.

(** A session whose counter never goes above 4 along the ticks is not
    stopped by them. *)
Lemma run_survives yields : forall s,
  (longest_empty_run (s_tries s) yields <= 4)%nat ->
  exists s', run (Collecting s) yields = Collecting s' /\
             s_tries s' = counter_after (s_tries s) yields.
Proof.
  induction yields as [|y ys IH]; intros s H; [exists s; auto|].
  change (run (Collecting s) (y :: ys))
    with (run (tick (Collecting s) y) ys).
  destruct y as [|d y]; cbn [longest_empty_run counter_after] in *.
  - cbn [tick collect_step].
    pose proof (longest_empty_run_ge ys (S (s_tries s))) as Hge.
    assert (H3 : (3 <? s_tries s)%nat = false) by (apply Nat.ltb_ge; lia).
    rewrite H3. apply (IH {| s_data := s_data s; s_tries := S (s_tries s);
                             npy := npy s; csv := csv s |}). exact H.
  - cbn [tick collect_step]. apply (IH {| s_data := s_data s ++ d :: y;
      s_tries := 0; npy := s_data s ++ d :: y;
      csv := csv s ++ csv_rows (d :: y) |}).
    cbn [s_tries]. lia.
Qed.

(** C2 (amended): a tick with a reading puts the counter back to zero
    and never stops the session; an empty tick adds one to the counter or
    stops the session with the DataStarved error. The session is not
    stopped as long as no more than three empty ticks are in a row, those
    the counter already holds included, however many empty ticks there
    are in all: so three empty ticks in a row leave a session whose
    counter is zero collecting, and two empty ticks, a tick with a reading
    and two more empty ticks leave one whose counter is at most 1
    collecting. Empty ticks in a row do stop the session, at the fifth
    at the latest. *)
Theorem empty_tick_counter s yields :
  (longest_empty_run (s_tries s) yields <= 3)%nat ->
  (exists s', run (Collecting s) yields = Collecting s' /\
              s_tries s' = counter_after (s_tries s) yields) /\
  (forall s0 d data_n, exists s',
     tick (Collecting s0) (d :: data_n) = Collecting s' /\
     s_tries s' = 0%nat /\ s_data s' = s_data s0 ++ d :: data_n) /\
  (forall s0,
     tick (Collecting s0) [] = Collecting (set_tries (S (s_tries s0)) s0) \/
     tick (Collecting s0) [] = Stopped starved) /\
  (forall s0, s_tries s0 = 0%nat ->
     exists s', run (Collecting s0) [[]; []; []] = Collecting s' /\
                s_tries s' = 3%nat) /\
  (forall s0 d data_n, (s_tries s0 <= 1)%nat ->
     exists s', run (Collecting s0) [[]; []; d :: data_n; []; []] = Collecting s' /\
                s_tries s' = 2%nat) /\
  (forall s0, exists k,
     (k <= 5)%nat /\ run (Collecting s0) (repeat [] k) = Stopped starved).
Proof.
  intros Hrun. split; [apply run_survives; lia|].
  split; [intros s0 d data_n; eexists; repeat split|].
  split; [intros s0; unfold tick, collect_step;
          destruct (3 <? s_tries s0)%nat; auto|].
  split; [intros s0 H0; destruct (run_survives [[]; []; []] s0) as (s' & Hr & Hc);
          [cbn [longest_empty_run]; lia
          |exists s'; split; [exact Hr|]; rewrite Hc, H0; reflexivity]|].
  split.
  - intros s0 d data_n H1.
    destruct (run_survives [[]; []; d :: data_n; []; []] s0) as (s' & Hr & Hc);
      [cbn [longest_empty_run]; lia|].
    exists s'. split; [exact Hr|]. rewrite Hc. reflexivity.
  - intros s0. destruct (Nat.le_gt_cases (s_tries s0) 4) as [H4|H4].
    + exists (5 - s_tries s0)%nat. split; [lia|]. rewrite empty_run by exact H4.
      assert (H : (s_tries s0 + (5 - s_tries s0) <=? 4)%nat = false)
        by (apply Nat.leb_gt; lia).
      now rewrite H.
    + exists 1%nat. split; [lia|]. cbn [repeat]. unfold run. cbn [fold_left].
      unfold tick, collect_step.
      assert (H : (3 <? s_tries s0)%nat = true) by (apply Nat.ltb_lt; lia).
      now rewrite H.
Qed.

Lemma empty_tick_counter_witness :
  (longest_empty_run (s_tries fresh_session)
     [[]; []; [sample_reading]; []; []] <= 3)%nat /\
  exists s', run (Collecting fresh_session)
               [[]; []; [sample_reading]; []; []] = Collecting s' /\
             s_tries s' = counter_after (s_tries fresh_session)
                            [[]; []; [sample_reading]; []; []].
Proof.
  split; [vm_compute; lia|].
  destruct (empty_tick_counter fresh_session
              [[]; []; [sample_reading]; []; []]) as [H _];
    [vm_compute; lia | exact H].
Defined.

(** ** The framed transport *)

Lemma filter_filter_neg {A : Type} (p : A -> bool) (l : list A) :
  filter p (filter (fun x => negb (p x)) l) = [].
Proof.
  induction l as [|x l IH]; simpl; [reflexivity|].
  destruct (p x) eqn:Hp; simpl; [assumption|]. now rewrite Hp.
Qed.

Lemma filter_idem {A : Type} (p : A -> bool) (l : list A) :
  filter p (filter p l) = filter p l.
Proof.
  induction l as [|x l IH]; simpl; [reflexivity|].
  destruct (p x) eqn:Hp; simpl; [rewrite Hp; now f_equal | assumption].
Qed.

Lemma arrive_arrive w : arrive (arrive w) = arrive w.
Proof.
  unfold arrive, with_buffers. simpl.
  rewrite filter_filter_neg, filter_idem. simpl. now rewrite app_nil_r.
Qed.

Lemma arrive_record e w : arrive (record e w) = record e (arrive w).
Proof. reflexivity. Qed.

Lemma forallb_filter {A : Type} (P q : A -> bool) (l : list A) :
  forallb P l = true -> forallb P (filter q l) = true.
Proof.
  rewrite !forallb_forall. intros H x Hx. apply filter_In in Hx. now apply H.
Qed.

Lemma ascii_bytes_concat (l : list (N * bytes)) :
  forallb (fun p => ascii_bytes (snd p)) l = true ->
  ascii_bytes (concat (map snd l)) = true.
Proof.
  induction l as [|p l IH]; simpl; [reflexivity|].
  intros H. apply andb_true_iff in H. destruct H as [Hp Hl].
  unfold ascii_bytes in *. rewrite forallb_app, Hp. now apply IH.
Qed.

Lemma ascii_link_arrive w : ascii_link w = true -> ascii_link (arrive w) = true.
Proof.
  unfold ascii_link, arrive. simpl. intros H.
  apply andb_true_iff in H. destruct H as [Hb Hi].
  apply andb_true_iff. split.
  - unfold ascii_bytes in *. rewrite forallb_app, Hb. simpl.
    apply (ascii_bytes_concat (filter _ (inbound w))).
    now apply forallb_filter.
  - now apply forallb_filter.
Qed.

Lemma ascii_bytes_split n b :
  ascii_bytes b = true ->
  ascii_bytes (firstn n b) = true /\ ascii_bytes (skipn n b) = true.
Proof.
  unfold ascii_bytes. intros H. rewrite <- (firstn_skipn n b) in H.
  rewrite forallb_app in H. now apply andb_true_iff in H.
Qed.

Lemma utf8_points_ascii (l : list N) :
  forallb (fun n => (n <? 128)%N) l = true -> utf8_points l = Some l.
Proof.
  induction l as [|n l IH]; simpl; [reflexivity|].
  intros H. apply andb_true_iff in H. destruct H as [Hn Hl].
  rewrite Hn. now rewrite (IH Hl).
Qed.

Lemma decode_ascii b : ascii_bytes b = true -> exists s, decode b = Decoded s.
Proof.
  intros H. unfold decode. rewrite utf8_points_ascii.
  - assert (Hw : forallb (fun p => (p <? 256)%N) (map Byte.to_N b) = true).
    { apply forallb_forall. intros p Hp. apply in_map_iff in Hp.
      destruct Hp as (x & <- & _). apply N.ltb_lt.
      pose proof (Byte.to_N_bounded x). lia. }
    rewrite Hw. eauto.
  - unfold ascii_bytes in H. rewrite forallb_forall in *.
    intros n Hn. apply in_map_iff in Hn. destruct Hn as (x & <- & Hx). now apply H.
Qed.

(** The loop of [read] ends within its budget; it leaves either a frame
    that is not empty or, timing out, no frame and a warning. *)
Lemma read_loop_spec b : forall t_stop last_val w,
  (t_stop <= clock w + 50 * N.of_nat b)%N ->
  exists frame timed_out w' evs,
    read_loop (S b) t_stop last_val w = (inr (frame, timed_out), w') /\
    trace w' = trace w ++ evs /\ polls_then_read evs = true /\
    timed_out = negb (stable last_val (poll_counts evs)) /\
    (if timed_out : bool
     then frame = [] /\ In ReadTimedOut (warned w')
     else frame <> [] /\ In (DevRead (List.length frame) frame) evs) /\
    (ascii_link w = true -> ascii_link w' = true /\ ascii_bytes frame = true).
Proof.
  induction b as [|b IH]; intros t_stop last_val w Hb.
  - exists [], true, (add_warning ReadTimedOut w), [].
    simpl. assert (Hc : (clock w <? t_stop)%N = false) by (apply N.ltb_ge; lia).
    rewrite Hc. unfold bind, warn, ret. simpl. rewrite app_nil_r.
    repeat split; auto. apply in_or_app. simpl. tauto.
  - cbn [read_loop]. destruct (clock w <? t_stop)%N eqn:Hc.
    + unfold bind at 1. unfold in_waiting at 1.
      set (n := List.length (in_buffer (arrive w))).
      destruct ((0 <? n)%nat && (n =? last_val)%nat) eqn:Hstable.
      * unfold bind, dev_read, ret. rewrite arrive_record, arrive_arrive.
        cbn [record in_buffer inbound with_buffers].
        set (frame := firstn n (in_buffer (arrive w))).
        assert (Hlen : List.length frame = n).
        { subst frame. rewrite length_firstn. fold n. apply Nat.min_id. }
        exists frame, false.
        eexists. exists [DevInWaiting n; DevRead n frame].
        split; [reflexivity|]. cbn [trace record with_buffers].
        split; [now rewrite <- app_assoc|]. split; [reflexivity|].
        split; [cbn [poll_counts stable]; now rewrite Hstable|]. split.
        -- apply andb_true_iff in Hstable. destruct Hstable as [Hpos _].
           apply Nat.ltb_lt in Hpos. split.
           ++ intros Hnil. rewrite Hnil in Hlen. simpl in Hlen. lia.
           ++ rewrite Hlen. simpl. tauto.
        -- intros Ha. apply ascii_link_arrive in Ha. unfold ascii_link in *.
           cbn [record in_buffer inbound with_buffers].
           apply andb_true_iff in Ha. destruct Ha as [Hbuf Hin].
           destruct (ascii_bytes_split n _ Hbuf) as [Hf Hs].
           subst frame. rewrite Hf, Hs, Hin. auto.
      * unfold bind at 1. unfold sleep at 1.
        set (w2 := with_clock _ _).
        destruct (IH t_stop n w2)
          as (frame & to & w' & evs & Hr & Ht & Hp & Hst & Hf & Ha).
        { subst w2. cbn [clock with_clock record]. unfold arrive.
          cbn [clock with_buffers]. lia. }
        exists frame, to, w', (DevInWaiting n :: evs).
        split; [exact Hr|]. split.
        { rewrite Ht. subst w2. cbn [trace with_clock record].
          unfold arrive. cbn [trace with_buffers]. now rewrite <- app_assoc. }
        split; [exact Hp|].
        split; [cbn [poll_counts stable]; now rewrite Hstable|]. split.
        { destruct to; [exact Hf|]. destruct Hf as [Hne Hin].
          split; [exact Hne | now right]. }
        intros Hl. apply Ha. apply ascii_link_arrive in Hl. exact Hl.
    + exists [], true, (add_warning ReadTimedOut w), [].
      unfold bind, warn, ret. simpl. rewrite app_nil_r.
      repeat split; auto. apply in_or_app. simpl. tauto.
Qed.

Lemma read_budget_enough w :
  (clock w + timeout w <=
   clock (record ReadCall w) +
   50 * N.of_nat (S (N.to_nat (timeout w / 50))))%N.
Proof.
  cbn [clock record]. rewrite Nat2N.inj_succ, N2Nat.id.
  pose proof (N.mul_succ_div_gt (timeout w) 50). lia.
Qed.







(** With a seven-bit link, [read] returns, and its events are those of
    one read cycle. *)
Lemma read_spec w :
  ascii_link w = true ->
  exists s w' cycle,
    read w = (inr s, w') /\ trace w' = trace w ++ cycle /\
    one_read cycle = true /\ ascii_link w' = true.
Proof.
  intros Ha.
  destruct (read_loop_spec (S (N.to_nat (timeout w / 50)))
              (clock w + timeout w)%N 0%nat (record ReadCall w)
              (read_budget_enough w))
    as (frame & to & w' & evs & Hr & Ht & Hp & _ & _ & Hl).
  destruct (Hl Ha) as [Hl' Hfr].
  destruct (decode_ascii frame Hfr) as [s Hs].
  exists (strip s), w', (ReadCall :: evs).
  split; [|split; [|split]]; auto.
  - unfold read, bind.
    change (read_budget w) with (S (S (N.to_nat (timeout w / 50)))).
    rewrite Hr. cbn [fst]. unfold decode_text. rewrite Hs. reflexivity.
  - rewrite Ht. cbn [trace record]. now rewrite <- app_assoc.
Qed.

Lemma last_of_app {A : Type} (l1 l2 : list A) (d : A) :
  l2 <> [] -> last (l1 ++ l2) d = last l2 d.
Proof.
  intros Hne. induction l1 as [|x l1 IH]; [reflexivity|].
  simpl app. cbn [last]. destruct (l1 ++ l2) eqn:E; [|exact IH].
  apply app_eq_nil in E. destruct E. contradiction.
Qed.

Lemma write_cons c command w :
  write (String c command) w =
  (dev_write (encode_char c) ;; _ <- read ;; write command) w.
Proof.
  unfold write. cbn [write_chars]. unfold bind, dev_write.
  destruct (read _) as [[f|s] w1]; reflexivity.
Qed.

(** C9 (counterexample): with a byte that is no UTF-8 waiting in the
    buffer, [write("P")] writes the character, reads the byte as its echo
    and stops on the [UnicodeDecodeError] of [read]: the line terminator
    is never written. *)
Lemma write_stops_on_undecodable_echo :
  fst (write "P" garbled_world) = inl (Raise UnicodeDecodeError) /\
  trace (snd (write "P" garbled_world)) =
    [DevWrite (encode "P"); ReadCall; DevInWaiting 1; DevInWaiting 1;
     DevRead 1 [Byte.xff]] /\
  ~ (exists w' tr,
       write "P" garbled_world = (inr tt, w') /\
       trace w' = trace garbled_world ++ tr /\
       write_trace "P" tr /\
       last tr ReadCall = DevWrite (encode CRLF)).
Proof.
  split; [vm_compute; reflexivity|]. split; [vm_compute; reflexivity|].
  intros (w' & tr & H & _). vm_compute in H. discriminate.
Qed.

(** C9 (amended): with a seven-bit link, so that every echo decodes,
    [write(command)] returns, and what it did
    to the device is: each character of the command written alone and
    followed by one [read()], then the two bytes CR LF in one write, which
    is the last event. *)
Theorem write_one_read_per_character command : forall w,
  ascii_link w = true ->
  exists w' tr,
    write command w = (inr tt, w') /\
    trace w' = trace w ++ tr /\
    write_trace command tr /\
    last tr ReadCall = DevWrite (encode CRLF).
Proof.
  induction command as [|c command IH]; intros w Ha.
  - exists (record (DevWrite (encode CRLF)) w), [DevWrite (encode CRLF)].
    repeat split. constructor.
  - rewrite write_cons. unfold bind at 1. unfold dev_write at 1.
    set (w1 := record _ w).
    destruct (read_spec w1) as (s & w2 & cycle & Hr & Ht & Hc & Ha2);
      [exact Ha|].
    unfold bind. rewrite Hr.
    destruct (IH w2 Ha2) as (w' & tr & Hw & Htr & Hwt & Hlast).
    exists w', (DevWrite (encode_char c) :: cycle ++ tr).
    split; [exact Hw|]. split; [|split].
    + rewrite Htr, Ht. subst w1. cbn [trace record].
      rewrite <- !app_assoc. reflexivity.
    + now constructor.
    + assert (Hne : tr <> []) by (inversion Hwt; discriminate).
      change (DevWrite (encode_char c) :: cycle ++ tr)
        with ((DevWrite (encode_char c) :: cycle) ++ tr).
      rewrite last_of_app; assumption.
Qed.

Lemma write_one_read_per_character_witness :
  exists w' tr,
    write "P" echo_world = (inr tt, w') /\
    trace w' = trace echo_world ++ tr /\
    write_trace "P" tr /\
    last tr ReadCall = DevWrite (encode CRLF).
Proof.
  apply (write_one_read_per_character "P" echo_world). reflexivity.
Defined.

(** ** The loops of [log_data] and the state machine *)

(** A turn of the [while not data] loop is a poll followed by [tick]. *)
Lemma priming_turn budget interval tries w :
  priming (S budget) interval [] tries w =
  match poll interval w with
  | (inl f, w') => (inl f, w')
  | (inr data_n, w') =>
      match tick (Priming tries) data_n with
      | Stopped e => (inl (Raise e), w')
      | Priming tries' => priming budget interval [] tries' w'
      | Collecting s => (inr (s_data s, s_tries s), w')
      end
  end.
Proof.
  cbn [priming]. unfold bind. destruct (poll interval w) as [[f|data_n] w'];
    [reflexivity|].
  cbn [app tick]. unfold prime_step.
  destruct (2 <? tries)%nat; [reflexivity|].
  destruct data_n as [|d data_n]; [reflexivity|].
  destruct budget; reflexivity.
Qed.

(** A turn of the [while go_cond] loop, with no deadline, is a poll
    followed by [tick] and, when the poll gave readings, by the writing
    of the files. *)
Lemma collecting_turn ticks d interval s w :
  collecting (S ticks) d interval None s w =
  match poll interval w with
  | (inl f, w') => (inl f, w')
  | (inr data_n, w') =>
      match tick (Collecting s) data_n with
      | Stopped e => (inl (Raise e), w')
      | Collecting s' =>
          match data_n, d (clock w') with
          | _ :: _, Some msg => (inl (Raise (IOError msg)), w')
          | _, _ => collecting ticks d interval None s' w'
          end
      | Priming _ => (inl OutOfBudget, w')
      end
  end.
Proof.
  cbn [collecting]. unfold bind at 1.
  destruct (poll interval w) as [[f|data_n] w']; [reflexivity|].
  cbn [tick]. destruct (collect_step s data_n) as [e|s']; [reflexivity|].
  unfold bind, write_files, ret.
  destruct data_n; [reflexivity|]. destruct (d (clock w')); reflexivity.
Qed.

Lemma read_within_budget w : fst (read w) <> inl OutOfBudget.
Proof.
  destruct (read_loop_spec (S (N.to_nat (timeout w / 50)))
              (clock w + timeout w)%N 0%nat (record ReadCall w)
              (read_budget_enough w))
    as (frame & to & w' & evs & Hr & _).
  unfold read, bind.
  change (read_budget w) with (S (S (N.to_nat (timeout w / 50)))).
  rewrite Hr. cbn [fst]. unfold decode_text.
  destruct (decode frame); simpl; discriminate.
Qed.

Lemma parse_each_within_budget raw_data : forall acc w,
  fst (parse_each raw_data acc w) <> inl OutOfBudget.
Proof.
  induction raw_data as [|d rest IH]; intros acc w; [simpl; discriminate|].
  cbn [parse_each]. unfold bind at 1, try_parse, parse_data.
  destruct (_parse_data _ d) as [ws [e|r]].
  - destruct e; try (simpl; discriminate). apply IH.
  - apply IH.
Qed.

Lemma poll_within_budget interval w : fst (poll interval w) <> inl OutOfBudget.
Proof.
  unfold poll, bind at 1, sleep. unfold bind.
  set (w1 := with_clock _ w). pose proof (read_within_budget w1) as Hr.
  destruct (read w1) as [[f|frame] w2]; cbn [fst] in *.
  - intros E. apply Hr. now inversion E.
  - apply parse_each_within_budget.
Qed.

(** The [while not data] loop ends within four turns. *)
Lemma priming_within_budget budget : forall interval tries w,
  (3 <= tries + budget)%nat ->
  fst (priming (S budget) interval [] tries w) <> inl OutOfBudget.
Proof.
  induction budget as [|budget IH]; intros interval tries w Hb;
    rewrite priming_turn; pose proof (poll_within_budget interval w) as Hp;
    destruct (poll interval w) as [[f|data_n] w']; cbn [fst] in *;
    try (intros E; apply Hp; now inversion E); cbn [tick]; unfold prime_step.
  - assert (H : (2 <? tries)%nat = true) by (apply Nat.ltb_lt; lia).
    rewrite H. simpl. discriminate.
  - destruct (2 <? tries)%nat; [simpl; discriminate|].
    destruct data_n; [apply IH; lia | simpl; discriminate].
Qed.

(** C3 (amended): priming goes through a fourth polling turn: when the
    first four polls parse no reading, [log_data]'s first loop raises the
    NoResponse error at the end of the fourth, and after the third it is
    still running, its counter at 3. *)
Theorem four_empty_turns_no_response interval w0 w1 w2 w3 w4 :
  poll interval w0 = (inr [], w1) ->
  poll interval w1 = (inr [], w2) ->
  poll interval w2 = (inr [], w3) ->
  poll interval w3 = (inr [], w4) ->
  priming 4 interval [] 0 w0 = (inl (Raise no_response), w4) /\
  priming 4 interval [] 0 w0 = priming 1 interval [] 3 w3 /\
  run (Priming 0) [[]; []; []; []] = Stopped no_response /\
  run (Priming 0) [[]; []; []] = Priming 3.
Proof.
  intros H0 H1 H2 H3.
  assert (Hgo : priming 4 interval [] 0 w0 = priming 1 interval [] 3 w3).
  { rewrite priming_turn, H0. cbn [tick prime_step Nat.ltb Nat.leb].
    rewrite priming_turn, H1. cbn [tick prime_step Nat.ltb Nat.leb].
    rewrite priming_turn, H2. reflexivity. }
  repeat split; try reflexivity; [|exact Hgo].
  rewrite Hgo, priming_turn, H3. reflexivity.
Qed.

Lemma four_empty_turns_no_response_witness :
  priming 4 1 [] 0 (polled 0 idle_world) =
    (inl (Raise no_response), polled 4 idle_world) /\
  priming 4 1 [] 0 (polled 0 idle_world) =
    priming 1 1 [] 3 (polled 3 idle_world) /\
  run (Priming 0) [[]; []; []; []] = Stopped no_response /\
  run (Priming 0) [[]; []; []] = Priming 3.
Proof.
  apply (four_empty_turns_no_response 1 (polled 0 idle_world)
           (polled 1 idle_world) (polled 2 idle_world) (polled 3 idle_world)
           (polled 4 idle_world));
    vm_compute; reflexivity.
Defined.

(** Three polls without a reading leave a session whose counter is zero
    collecting: the loop goes on, the counter at 3. *)
Lemma collecting_three_empty_polls ticks d interval s w0 w1 w2 w3 :
  s_tries s = 0%nat ->
  poll interval w0 = (inr [], w1) ->
  poll interval w1 = (inr [], w2) ->
  poll interval w2 = (inr [], w3) ->
  collecting (3 + ticks) d interval None s w0 =
  collecting ticks d interval None (set_tries 3 s) w3.
Proof.
  intros Hs H0 H1 H2. destruct s as [sd st sn sc]. simpl in Hs. subst st.
  cbn [Nat.add].
  rewrite collecting_turn, H0. cbn [tick collect_step s_tries Nat.ltb Nat.leb].
  rewrite collecting_turn, H1. cbn [tick collect_step s_tries Nat.ltb Nat.leb].
  rewrite collecting_turn, H2. reflexivity.
Qed.

(** The counter is not put back to zero between the two loops: a session
    primed on its third turn starts collecting with the counter at 3 and
    stops at its second empty tick. *)
Lemma counter_carried_over :
  run (Priming 0) [[]; []; [sample_reading]] =
    Collecting (start_files [sample_reading] 3) /\
  run (Priming 0) [[]; []; [sample_reading]; []; []] = Stopped starved.
Proof. split; reflexivity. Qed.

(** The same on the driver itself: the instrument answers nothing but one
    data line, in time for the third priming turn. *)
Lemma log_data_stops_after_two_empty_ticks :
  fst (log_data sound_disk true 1 None 5 late_line_world) = inl (Raise starved).
Proof. vm_compute. reflexivity. Qed.

(** * Further properties *)

(** ** The transport *)

Lemma written_app tr1 tr2 : written (tr1 ++ tr2) = written tr1 ++ written tr2.
Proof.
  induction tr1 as [|e tr1 IH]; [reflexivity|].
  destruct e; simpl; rewrite IH; try reflexivity.
  now rewrite app_assoc.
Qed.

Lemma polls_write_nothing evs : polls_then_read evs = true -> written evs = [].
Proof.
  induction evs as [|e evs IH]; [reflexivity|].
  destruct e; simpl; try discriminate; auto.
  destruct evs; [reflexivity | discriminate].
Qed.

(** What [flush] does to the link. *)
Lemma flush_effects w :
  exists w',
    flush w = (inr tt, w') /\
    in_buffer w' = [] /\ inbound w' = inbound (arrive w) /\
    clock w' = clock w /\ warned w' = warned w /\
    written (trace w') = written (trace w) /\
    (in_buffer (arrive w) = [] -> trace w' = trace w ++ [DevInWaiting 0]).
Proof.
  unfold flush, bind. unfold in_waiting at 1.
  set (n := List.length (in_buffer (arrive w))).
  destruct (0 <? n)%nat eqn:Hn.
  - unfold in_waiting, dev_read, ret.
    rewrite !arrive_record, !arrive_arrive. fold n.
    eexists. split; [reflexivity|].
    cbn [in_buffer inbound clock warned trace record with_buffers].
    repeat split.
    + apply skipn_all.
    + unfold arrive. cbn [trace with_buffers].
      rewrite <- !app_assoc, written_app. simpl. now rewrite app_nil_r.
    + intros Hnil. apply Nat.ltb_lt in Hn. subst n. rewrite Hnil in Hn.
      simpl in Hn. lia.
  - unfold ret. eexists. split; [reflexivity|].
    cbn [in_buffer inbound clock warned trace record with_buffers].
    apply Nat.ltb_ge in Hn. assert (H0 : n = 0%nat) by lia.
    repeat split.
    + subst n. now apply length_zero_iff_nil.
    + unfold arrive. cbn [trace with_buffers].
      rewrite written_app. simpl. now rewrite app_nil_r.
    + intros _. rewrite H0. reflexivity.
Qed.

(** X1: [flush] always returns, at once and without a warning; it writes
    nothing, and it leaves the input buffer empty: all that has arrived is
    read away. When nothing waits it only polls the buffer, once. *)
Theorem flush_drains w :
  exists w',
    flush w = (inr tt, w') /\
    in_buffer w' = [] /\ inbound w' = inbound (arrive w) /\
    clock w' = clock w /\ warned w' = warned w /\
    written (trace w') = written (trace w) /\
    (in_buffer (arrive w) = [] -> trace w' = trace w ++ [DevInWaiting 0]).
Proof.
  unfold flush, bind. unfold in_waiting at 1.
  set (n := List.length (in_buffer (arrive w))).
  destruct (0 <? n)%nat eqn:Hn.
  - unfold in_waiting, dev_read, ret.
    rewrite !arrive_record, !arrive_arrive. fold n.
    eexists. split; [reflexivity|].
    cbn [in_buffer inbound clock warned trace record with_buffers].
    repeat split.
    + apply skipn_all.
    + unfold arrive. cbn [trace with_buffers].
      rewrite <- !app_assoc, written_app. simpl. now rewrite app_nil_r.
    + intros Hnil. apply Nat.ltb_lt in Hn. subst n. rewrite Hnil in Hn.
      simpl in Hn. lia.
  - unfold ret. eexists. split; [reflexivity|].
    cbn [in_buffer inbound clock warned trace record with_buffers].
    apply Nat.ltb_ge in Hn. assert (H0 : n = 0%nat) by lia.
    repeat split.
    + subst n. now apply length_zero_iff_nil.
    + unfold arrive. cbn [trace with_buffers].
      rewrite written_app. simpl. now rewrite app_nil_r.
    + intros _. rewrite H0. reflexivity.
Qed.

(** What the loop of [read] does to the clock, the buffer and the
    warnings. *)
Lemma read_loop_effects b : forall t_stop last_val w,
  (t_stop <= clock w + 50 * N.of_nat b)%N ->
  exists frame timed_out w',
    read_loop (S b) t_stop last_val w = (inr (frame, timed_out), w') /\
    timeout w' = timeout w /\ written (trace w') = written (trace w) /\
    (clock w <= clock w')%N /\
    (clock w' < t_stop + 50 \/ clock w' = clock w)%N /\
    (if timed_out : bool
     then frame = [] /\ (t_stop <= clock w')%N /\
          warned w' = warned w ++ [ReadTimedOut] /\
          exists more, in_buffer w' = in_buffer w ++ more
     else (clock w' < t_stop)%N /\ warned w' = warned w /\
          in_buffer w' = [] /\ exists more, frame = in_buffer w ++ more).
Proof.
  induction b as [|b IH]; intros t_stop last_val w Hb.
  - exists [], true, (add_warning ReadTimedOut w).
    simpl. assert (Hc : (clock w <? t_stop)%N = false) by (apply N.ltb_ge; lia).
    rewrite Hc. unfold bind, warn, ret. simpl. apply N.ltb_ge in Hc.
    repeat split; auto; try lia. exists []. now rewrite app_nil_r.
  - cbn [read_loop]. destruct (clock w <? t_stop)%N eqn:Hc.
    + apply N.ltb_lt in Hc.
      unfold bind at 1. unfold in_waiting at 1.
      set (n := List.length (in_buffer (arrive w))).
      destruct ((0 <? n)%nat && (n =? last_val)%nat) eqn:Hstable.
      * unfold bind, dev_read, ret. rewrite arrive_record, arrive_arrive.
        cbn [record in_buffer inbound with_buffers].
        assert (Hfirst : firstn n (in_buffer (arrive w)) = in_buffer (arrive w))
          by (subst n; apply firstn_all).
        assert (Hskip : skipn n (in_buffer (arrive w)) = [])
          by (subst n; apply skipn_all).
        rewrite Hfirst, Hskip.
        do 3 eexists. split; [reflexivity|].
        cbn [timeout trace clock warned in_buffer record with_buffers].
        assert (Ha : timeout (arrive w) = timeout w /\
                     trace (arrive w) = trace w /\
                     clock (arrive w) = clock w /\
                     warned (arrive w) = warned w /\
                     exists more, in_buffer (arrive w) = in_buffer w ++ more).
        { unfold arrive. cbn [timeout trace clock warned in_buffer with_buffers].
          repeat split. eauto. }
        destruct Ha as (Ha1 & Ha2 & Ha3 & Ha4 & Ha5).
        rewrite Ha1, Ha2, Ha3, Ha4.
        repeat split; try lia; auto.
        rewrite <- !app_assoc, written_app. simpl. now rewrite app_nil_r.
      * unfold bind at 1. unfold sleep at 1.
        set (w2 := with_clock _ _).
        destruct (IH t_stop n w2)
          as (frame & to & w' & Hr & Hto & Hwr & Hc1 & Hc2 & Hcase).
        { subst w2. cbn [clock with_clock record]. unfold arrive.
          cbn [clock with_buffers]. lia. }
        assert (Hclk : clock w2 = (clock w + 50)%N) by reflexivity.
        assert (Hbuf : exists more, in_buffer w2 = in_buffer w ++ more).
        { subst w2. unfold arrive.
          cbn [in_buffer with_clock record with_buffers]. eauto. }
        destruct Hbuf as [more0 Hbuf].
        exists frame, to, w'. split; [exact Hr|].
        split; [rewrite Hto; reflexivity|]. split.
        { rewrite Hwr. subst w2. cbn [trace with_clock record].
          unfold arrive. cbn [trace with_buffers].
          rewrite written_app. simpl. now rewrite app_nil_r. }
        split; [lia|]. split; [left; lia|].
        destruct to.
        -- destruct Hcase as (Hf & Hstop & Hw & more & Hb').
           repeat split; auto. exists (more0 ++ more).
           now rewrite Hb', Hbuf, app_assoc.
        -- destruct Hcase as (Hlt & Hw & He & more & Hf).
           repeat split; auto. exists (more0 ++ more).
           now rewrite Hf, Hbuf, app_assoc.
    + exists [], true, (add_warning ReadTimedOut w).
      unfold bind, warn, ret. simpl. apply N.ltb_ge in Hc.
      repeat split; auto; try lia. exists []. now rewrite app_nil_r.
Qed.

(** X2: [read] never writes to the device and never changes the timeout,
    and it is over less than 50 ms after the timeout, whatever it returns
    or raises. *)
Theorem read_is_bounded w :
  written (trace (snd (read w))) = written (trace w) /\
  timeout (snd (read w)) = timeout w /\
  (clock w <= clock (snd (read w)) < clock w + timeout w + 50)%N /\
  fst (read w) <> inl OutOfBudget.
Proof.
  destruct (read_loop_effects (S (N.to_nat (timeout w / 50)))
              (clock w + timeout w)%N 0%nat (record ReadCall w)
              (read_budget_enough w))
    as (frame & to & w' & Hr & Hto & Hwr & Hc1 & Hc2 & _).
  assert (Hsnd : snd (read w) = w').
  { unfold read, bind.
    change (read_budget w) with (S (S (N.to_nat (timeout w / 50)))).
    rewrite Hr. cbn [fst]. unfold decode_text.
    destruct (decode frame); reflexivity. }
  rewrite Hsnd. cbn [clock record] in *. repeat split; auto; try lia.
  - rewrite Hwr. cbn [trace record]. rewrite written_app. simpl.
    now rewrite app_nil_r.
  - apply read_within_budget.
Qed.


Lemma sends_ret {A : Type} (a : A) : sends (ret a) [].
Proof.
  intros w Ha. exists a, w. repeat split; auto. now rewrite app_nil_r.
Qed.

Lemma sends_bind {A B : Type} (m : M A) (f : A -> M B) b1 b2 :
  sends m b1 -> (forall a, sends (f a) b2) -> sends (bind m f) (b1 ++ b2).
Proof.
  intros Hm Hf w Ha. destruct (Hm w Ha) as (a & w1 & Hr & Ha1 & Hw1).
  destruct (Hf a w1 Ha1) as (b & w2 & Hr2 & Ha2 & Hw2).
  exists b, w2. unfold bind. rewrite Hr. repeat split; auto.
  now rewrite Hw2, Hw1, app_assoc.
Qed.

Lemma sends_as {A : Type} (m : M A) b b' : sends m b -> b = b' -> sends m b'.
Proof. intros H <-. exact H. Qed.

Lemma sends_warn x : sends (warn x) [].
Proof.
  intros w Ha. exists tt, (add_warning x w). repeat split; auto.
  now rewrite app_nil_r.
Qed.

Lemma sends_dev_write b : sends (dev_write b) b.
Proof.
  intros w Ha. exists tt, (record (DevWrite b) w). repeat split; auto.
  cbn [trace record]. rewrite written_app. simpl. now rewrite app_nil_r.
Qed.

Lemma sends_flush : sends flush [].
Proof.
  intros w Ha. destruct (flush_effects w) as (w' & Hr & Hb & Hi & _ & _ & Hw & _).
  exists tt, w'. split; [exact Hr|]. split; [|now rewrite Hw, app_nil_r].
  apply ascii_link_arrive in Ha. unfold ascii_link in *. rewrite Hb, Hi.
  apply andb_true_iff in Ha. now destruct Ha.
Qed.

Lemma sends_read : sends read [].
Proof.
  intros w Ha. destruct (read_spec w Ha) as (s & w' & cycle & Hr & Ht & Hc & Ha').
  exists s, w'. repeat split; auto. rewrite Ht, written_app. f_equal.
  destruct cycle as [|e cycle]; [discriminate|]. destruct e; try discriminate.
  simpl. now apply polls_write_nothing.
Qed.

Lemma encode_app s1 s2 : encode (s1 ++ s2) = encode s1 ++ encode s2.
Proof.
  induction s1 as [|c s1 IH]; [reflexivity|].
  simpl. now rewrite IH, app_assoc.
Qed.

Lemma sends_write command : sends (write command) (encode (command ++ CRLF)).
Proof.
  induction command as [|c command IH].
  - apply (sends_as _ ([] ++ encode CRLF)); [|reflexivity].
    unfold write. apply sends_bind; [apply sends_ret|].
    intros _. apply sends_dev_write.
  - intros w Ha. rewrite write_cons. revert w Ha.
    apply (sends_as _ (encode_char c ++ [] ++ encode (command ++ CRLF)));
      [|reflexivity].
    apply sends_bind; [apply sends_dev_write|]. intros _.
    apply sends_bind; [apply sends_read|]. intros _. exact IH.
Qed.

(** X4: on a seven-bit link [write(command)] returns, and the bytes it
    puts on the line are, in order, the UTF-8 encoding of the command
    followed by carriage return and line feed. *)
Theorem write_puts_command_on_line command w :
  ascii_link w = true ->
  exists w',
    write command w = (inr tt, w') /\ ascii_link w' = true /\
    written (trace w') = written (trace w) ++ encode (command ++ CRLF).
Proof.
  intros Ha. destruct (sends_write command w Ha) as ([] & w' & H).
  exists w'. exact H.
Qed.

Lemma write_puts_command_on_line_witness :
  exists w',
    write "ST" echo_world = (inr tt, w') /\ ascii_link w' = true /\
    written (trace w') = written (trace echo_world) ++ encode ("ST" ++ CRLF).
Proof.
  apply (write_puts_command_on_line "ST" echo_world). reflexivity.
Defined.

Lemma sends_average_check out n :
  sends (match re.search re_average out with
         | None => warn AverageNotConfirmed
         | Some m =>
             if (int_of_digits (group 1 (m_groups m)) 0 =? n)%Z then ret tt
             else warn (AverageSetTo (group 1 (m_groups m)) n)
         end) [].
Proof.
  destruct (re.search re_average out) as [m|]; [|apply sends_warn].
  destruct (_ =? _)%Z; [apply sends_ret | apply sends_warn].
Qed.

Lemma sends_interval_check out n :
  sends (match re.search re_interval out with
         | None => warn IntervalNotConfirmed
         | Some m =>
             if (int_of_digits (group 1 (m_groups m)) 0 =? n)%Z then ret tt
             else warn (IntervalSetTo (group 1 (m_groups m)) n)
         end) [].
Proof.
  destruct (re.search re_interval out) as [m|]; [|apply sends_warn].
  destruct (_ =? _)%Z; [apply sends_ret | apply sends_warn].
Qed.

(** The exchange common to [set_average] and [set_output_interval]. *)
Lemma sends_exchange (command : string) (n : Z) (check : string -> M unit) :
  (forall out, sends (check out) []) ->
  sends (flush ;; write command ;; _ <- read ;; write (str n) ;;
         out <- read ;; _ <- read ;; check out)
        (encode (command ++ CRLF) ++ encode (str n ++ CRLF)).
Proof.
  intros Hcheck.
  apply (sends_as _ ([] ++ encode (command ++ CRLF) ++ [] ++
                     encode (str n ++ CRLF) ++ [] ++ [] ++ []));
    [|simpl; now rewrite !app_nil_r].
  apply sends_bind; [apply sends_flush|]. intros _.
  apply sends_bind; [apply sends_write|]. intros _.
  apply sends_bind; [apply sends_read|]. intros _.
  apply sends_bind; [apply sends_write|]. intros _.
  apply sends_bind; [apply sends_read|]. intros out.
  apply sends_bind; [apply sends_read|]. intros _.
  apply Hcheck.
Qed.

(** X5: with an averaging count from 1 to 16, on a seven-bit link,
    [set_average] returns, having sent the line AV and then the line of
    the count in decimal, and nothing else. *)
Theorem set_average_sends n w :
  (1 <= n <= 16)%Z -> ascii_link w = true ->
  exists w',
    set_average (PyInt n) w = (inr tt, w') /\ ascii_link w' = true /\
    written (trace w') =
      written (trace w) ++ encode ("AV" ++ CRLF) ++ encode (str n ++ CRLF).
Proof.
  intros Hn Ha.
  assert (Hr : ((n <? 1) || (16 <? n))%Z = false).
  { apply orb_false_iff. split; apply Z.ltb_ge; lia. }
  unfold set_average. unfold bind at 1. unfold ret at 1. cbv beta iota.
  rewrite Hr.
  destruct (sends_exchange "AV" n _ (fun out => sends_average_check out n) w Ha)
    as ([] & w' & H).
  exists w'. exact H.
Qed.

Lemma set_average_sends_witness :
  exists w',
    set_average (PyInt 4) echo_world = (inr tt, w') /\ ascii_link w' = true /\
    written (trace w') =
      written (trace echo_world) ++ encode ("AV" ++ CRLF) ++ encode (str 4 ++ CRLF).
Proof.
  apply (set_average_sends 4 echo_world); [lia | reflexivity].
Defined.

(** X6: with an interval of at least 1, on a seven-bit link,
    [set_output_interval] returns, having sent the line O and then the
    line of the interval in decimal, and nothing else. *)
Theorem set_output_interval_sends n w :
  (1 <= n)%Z -> ascii_link w = true ->
  exists w',
    set_output_interval (PyInt n) w = (inr tt, w') /\ ascii_link w' = true /\
    written (trace w') =
      written (trace w) ++ encode ("O" ++ CRLF) ++ encode (str n ++ CRLF).
Proof.
  intros Hn Ha.
  assert (Hr : (n <? 1)%Z = false) by (apply Z.ltb_ge; lia).
  unfold set_output_interval. unfold bind at 1. unfold ret at 1. cbv beta iota.
  rewrite Hr.
  destruct (sends_exchange "O" n _ (fun out => sends_interval_check out n) w Ha)
    as ([] & w' & H).
  exists w'. exact H.
Qed.

Lemma set_output_interval_sends_witness :
  exists w',
    set_output_interval (PyInt 30) echo_world = (inr tt, w') /\
    ascii_link w' = true /\
    written (trace w') =
      written (trace echo_world) ++ encode ("O" ++ CRLF) ++ encode (str 30 ++ CRLF).
Proof.
  apply (set_output_interval_sends 30 echo_world); [lia | reflexivity].
Defined.

(** X7: on a seven-bit link [get_data_immediate(return_raw=True)]
    returns, unparsed, the text its first [read()] after the poll command
    gave; it has sent the line P and nothing else. *)
Theorem get_data_immediate_raw w :
  ascii_link w = true ->
  exists w1 out w2 w',
    (flush ;; write "P") w = (inr tt, w1) /\
    read w1 = (inr out, w2) /\
    snd (read w2) = w' /\
    get_data_immediate true w = (inr (inl out), w') /\
    ascii_link w' = true /\
    written (trace w') = written (trace w) ++ encode ("P" ++ CRLF).
Proof.
  intros Ha.
  assert (Hs : sends (flush ;; write "P") (encode ("P" ++ CRLF))).
  { apply (sends_as _ ([] ++ encode ("P" ++ CRLF))); [|reflexivity].
    apply sends_bind; [apply sends_flush|]. intros _. apply sends_write. }
  destruct (Hs w Ha) as ([] & w1 & Hr1 & Ha1 & Hw1).
  destruct (sends_read w1 Ha1) as (out & w2 & Hr2 & Ha2 & Hw2).
  destruct (sends_read w2 Ha2) as (x & w' & Hr3 & Ha3 & Hw3).
  exists w1, out, w2, w'. split; [exact Hr1|]. split; [exact Hr2|].
  split; [now rewrite Hr3|]. split.
  - revert Hr1. unfold get_data_immediate, bind, ret.
    destruct (flush w) as [[f|y] w0]; [discriminate|].
    intros Hr1. rewrite Hr1, Hr2, Hr3. reflexivity.
  - split; [exact Ha3|]. rewrite Hw3, Hw2, Hw1. now rewrite !app_nil_r.
Qed.

Lemma get_data_immediate_raw_witness :
  fst (get_data_immediate true polling_world) = inr (inl sample_line) /\
  exists w1 out w2 w',
    (flush ;; write "P") polling_world = (inr tt, w1) /\
    read w1 = (inr out, w2) /\
    snd (read w2) = w' /\
    get_data_immediate true polling_world = (inr (inl out), w') /\
    ascii_link w' = true /\
    written (trace w') = written (trace polling_world) ++ encode ("P" ++ CRLF).
Proof.
  split; [vm_compute; reflexivity|].
  apply (get_data_immediate_raw polling_world). reflexivity.
Defined.

Lemma replace_aux_keeps p old : forall s k,
  all_in p s = true -> all_in p (replace_aux old "" k s) = true.
Proof.
  induction s as [|c s IH]; intros k Hs; [destruct k; reflexivity|].
  simpl in Hs. apply andb_true_iff in Hs. destruct Hs as [Hc Hs].
  destruct k as [|k]; cbn [replace_aux]; [|now apply IH].
  destruct (String.prefix old (String c s)); cbn [append all_in].
  - now apply IH.
  - rewrite Hc. now apply IH.
Qed.

Lemma replace_removes_cr : forall s k,
  all_in not_cr (replace_aux (String CR "") "" k s) = true.
Proof.
  induction s as [|c s IH]; intros k; [destruct k; reflexivity|].
  destruct k as [|k]; cbn [replace_aux]; [|apply IH].
  cbn [String.prefix String.length Nat.sub].
  destruct (ascii_dec CR c) as [E|E].
  - destruct s; cbn [append]; apply IH.
  - cbn [all_in]. rewrite IH, andb_true_r. unfold not_cr.
    destruct (Ascii.eqb_spec c CR); [congruence | reflexivity].
Qed.

(** X8: on a seven-bit link [get_status] returns a report that holds no
    carriage return, having sent the line ST and then an empty line, and
    nothing else. *)
Theorem get_status_report print_status w :
  ascii_link w = true ->
  exists out w',
    get_status print_status w = (inr out, w') /\ ascii_link w' = true /\
    all_in not_cr out = true /\
    written (trace w') =
      written (trace w) ++ encode ("ST" ++ CRLF) ++ encode CRLF.
Proof.
  intros Ha.
  assert (Hs : sends (get_status print_status)
                     (encode ("ST" ++ CRLF) ++ encode CRLF)).
  { unfold get_status.
    apply (sends_as _ ([] ++ encode ("ST" ++ CRLF) ++ [] ++
                       encode ("" ++ CRLF) ++ [] ++ [] ++ []));
      [|simpl; reflexivity].
    apply sends_bind; [apply sends_flush|]. intros _.
    apply sends_bind; [apply sends_write|]. intros _.
    apply sends_bind; [apply sends_read|]. intros out.
    apply sends_bind; [apply sends_write|]. intros _.
    apply sends_bind; [apply sends_read|]. intros _.
    apply sends_bind; [apply sends_read|]. intros _.
    apply sends_ret. }
  destruct (Hs w Ha) as (a & w' & Hr & Ha' & Hw).
  exists a, w'. repeat split; auto.
  revert Hr. unfold get_status, bind, ret.
  destruct (flush w) as [[f|x] w1]; [discriminate|].
  destruct (write "ST" w1) as [[f|y] w2]; [discriminate|].
  destruct (read w2) as [[f|out] w3]; [discriminate|].
  destruct (write "" w3) as [[f|z] w4]; [discriminate|].
  destruct (read w4) as [[f|o1] w5]; [discriminate|].
  destruct (read w5) as [[f|o2] w6]; [discriminate|].
  intros H. inversion H. unfold replace.
  apply replace_aux_keeps. apply replace_removes_cr.
Qed.

Lemma get_status_report_witness :
  exists out w',
    get_status true echo_world = (inr out, w') /\ ascii_link w' = true /\
    all_in not_cr out = true /\
    written (trace w') =
      written (trace echo_world) ++ encode ("ST" ++ CRLF) ++ encode CRLF.
Proof.
  apply (get_status_report true echo_world). reflexivity.
Defined.

Lemma utf8_points_char c rest :
  utf8_points (map Byte.to_N (encode_char c) ++ rest) =
  cons_to (code c) (utf8_points rest).
Proof.
  destruct c as [[] [] [] [] [] [] [] []]; reflexivity.
Qed.

Lemma utf8_points_encode s :
  utf8_points (map Byte.to_N (encode s)) =
  Some (map code (list_ascii_of_string s)).
Proof.
  induction s as [|c s IH]; [reflexivity|].
  cbn [encode list_ascii_of_string map].
  now rewrite map_app, utf8_points_char, IH.
Qed.

(** X9: a text sent as [write] encodes it is read back as [read] decodes
    it: decoding the UTF-8 encoding of a text gives the text. *)
Theorem decode_encode s : decode (encode s) = Decoded s.
Proof.
  unfold decode. rewrite utf8_points_encode.
  assert (Hw : forallb (fun p => (p <? 256)%N)
                 (map code (list_ascii_of_string s)) = true).
  { apply forallb_forall. intros p Hp. apply in_map_iff in Hp.
    destruct Hp as (c & <- & _). apply N.ltb_lt. apply N_ascii_bounded. }
  rewrite Hw. f_equal. rewrite map_map.
  rewrite <- (string_of_list_ascii_of_string s) at 2. f_equal.
  rewrite <- (map_id (list_ascii_of_string s)) at 2.
  apply map_ext. intros c. apply ascii_N_embedding.
Qed.

(** ** Lines *)

Lemma search_crlf s : forall pos,
  found (re.search_from re_crlf pos s) = negb (crlf_free s).
Proof.
  induction s as [|c s IH]; intros pos; [reflexivity|].
  cbn [re.search_from]. unfold re.match_at, re_crlf. cbn [mt].
  rewrite (Ascii.eqb_sym CR c).
  destruct s as [|c' s'].
  - destruct (Ascii.eqb c CR); reflexivity.
  - rewrite (Ascii.eqb_sym LF c'). cbn [crlf_free].
    destruct (Ascii.eqb c CR); [destruct (Ascii.eqb c' LF)|];
      cbn [andb negb found]; try reflexivity; apply IH.
Qed.

Lemma string_of_list_app l1 l2 :
  string_of_list_ascii (l1 ++ l2) =
  (string_of_list_ascii l1 ++ string_of_list_ascii l2)%string.
Proof. induction l1 as [|c l1 IH]; [reflexivity|]. simpl. now rewrite IH. Qed.

Lemma crlf_free_prefix a : forall b, crlf_free (a ++ b) = true -> crlf_free a = true.
Proof.
  induction a as [|x a IH]; intros b H; [reflexivity|].
  destruct a as [|y a]; [reflexivity|].
  cbn [append crlf_free] in *. apply andb_true_iff in H. destruct H as [H1 H2].
  rewrite H1. exact (IH b H2).
Qed.

Lemma crlf_free_snoc a : forall c c',
  crlf_free (a ++ String c "") = true ->
  (Ascii.eqb c CR && Ascii.eqb c' LF) = false ->
  crlf_free (a ++ String c (String c' "")) = true.
Proof.
  induction a as [|x a IH]; intros c c' H Hn.
  - cbn [append crlf_free]. now rewrite Hn.
  - destruct a as [|y a].
    + cbn [append crlf_free] in *. apply andb_true_iff in H. destruct H as [H1 _].
      now rewrite H1, Hn.
    + cbn [append crlf_free] in *. apply andb_true_iff in H. destruct H as [H1 H2].
      rewrite H1. exact (IH c c' H2 Hn).
Qed.

Lemma append_snoc a c t :
  ((a ++ String c "") ++ t = a ++ String c t)%string.
Proof. induction a as [|x a IH]; [reflexivity|]. simpl. now rewrite IH. Qed.

(** The segments [split_crlf_aux] gives hold no line terminator, when the
    segment under way, with the next character, holds none. *)
Lemma split_crlf_aux_free s :
  let P s := forall cur,
    crlf_free (string_of_list_ascii (rev cur) ++
               match s with String c _ => String c "" | EmptyString => "" end)
      = true ->
    Forall (fun seg => crlf_free seg = true) (split_crlf_aux s cur) in
  P s /\ forall c, P (String c s).
Proof.
  induction s as [|c' s IH]; cbv zeta in *.
  - split.
    + intros cur H. constructor; [|constructor]. now apply crlf_free_prefix in H.
    + intros c cur H. constructor; [|constructor].
      cbn [rev]. now rewrite string_of_list_app.
  - destruct IH as [IH0 IH1]. split; [apply IH1|].
    intros c cur H. cbn [split_crlf_aux].
    destruct (Ascii.eqb c CR && Ascii.eqb c' LF) eqn:E.
    + constructor; [now apply crlf_free_prefix in H|].
      apply IH0. destruct s; reflexivity.
    + apply IH1. cbn [rev]. rewrite string_of_list_app.
      cbn [string_of_list_ascii]. rewrite append_snoc.
      now apply crlf_free_snoc.
Qed.

Lemma split_crlf_free frame :
  Forall (fun seg => crlf_free seg = true) (split_crlf frame).
Proof.
  unfold split_crlf. apply (split_crlf_aux_free frame). destruct frame; reflexivity.
Qed.

Lemma no_multiple_lines now line :
  check_lines line = ([], Some line) ->
  ~ In MultipleLines (fst (_parse_data now line)).
Proof.
  intros Hc. unfold _parse_data. rewrite Hc.
  destruct (re.search re_timestamp line) as [m|];
    [destruct (strptime (m_text m))|];
    destruct (re.findall re_token line) as [|t ts];
    try destruct (collect (t :: ts) [] []) as [e|[names vals]];
    try (destruct (re.search re_status line) as [ms|];
         [destruct (String.eqb _ _)|]);
    simpl; intros H; repeat (destruct H as [H|H]; try discriminate); auto.
Qed.

(** X10: a segment of [split('\r\n')] holds no line terminator, so
    [_parse_data] takes it as it is: the lines [log_data] parses never go
    through the choice among several lines, nor get its warning. *)
Theorem segments_are_single_lines now frame seg :
  In seg (split_crlf frame) ->
  crlf_free seg = true /\
  check_lines seg = ([], Some seg) /\
  ~ In MultipleLines (fst (_parse_data now seg)).
Proof.
  intros Hin. pose proof (split_crlf_free frame) as Hall.
  rewrite Forall_forall in Hall. specialize (Hall seg Hin).
  assert (Hc : check_lines seg = ([], Some seg)).
  { unfold check_lines, re.search. rewrite search_crlf, Hall. reflexivity. }
  repeat split; auto. now apply no_multiple_lines.
Qed.

Lemma segments_are_single_lines_witness :
  crlf_free sample_line = true /\
  check_lines sample_line = ([], Some sample_line) /\
  ~ In MultipleLines (fst (_parse_data noon sample_line)).
Proof.
  apply (segments_are_single_lines noon two_segments sample_line).
  vm_compute. tauto.
Defined.

(** ** Polling *)

Lemma parse_raises_value_error now s w e :
  _parse_data now s = (w, inl e) -> exists v, e = ValueError v.
Proof.
  unfold _parse_data. destruct (check_lines s) as [w1 [line|]].
  - destruct (re.search re_timestamp line) as [m|];
      [destruct (strptime (m_text m))|];
      try (intros H; inversion H; eauto; fail);
      (destruct (re.findall re_token line) as [|t ts];
       [intros H; inversion H; eauto|]);
      (destruct (collect (t :: ts) [] []) as [e'|[names vals]] eqn:Hc;
       [apply collect_fails in Hc; destruct Hc as (m' & _ & _ & ->);
        intros H; inversion H; eauto|]);
      (destruct (re.search re_status line) as [ms|];
       [destruct (String.eqb _ _)|]); discriminate.
  - intros H. inversion H. eauto.
Qed.

Lemma warnings_keep ws : forall w,
  same_but_warnings w (fold_left (fun w x => add_warning x w) ws w).
Proof.
  induction ws as [|x ws IH]; intros w; [repeat split|].
  cbn [fold_left]. destruct (IH (add_warning x w)) as (H1 & H2 & H3 & H4 & H5 & H6).
  repeat split; assumption.
Qed.

Lemma try_parse_spec d w :
  exists w',
    try_parse d w =
      (inr (match snd (_parse_data (local_time w (clock w)) d) with
            | inr r => Some r | inl _ => None end), w') /\
    same_but_warnings w w'.
Proof.
  unfold try_parse, parse_data.
  destruct (_parse_data (local_time w (clock w)) d) as [ws [e|r]] eqn:Hp.
  - destruct (parse_raises_value_error _ _ _ _ Hp) as [v ->].
    eexists. split; [reflexivity | apply warnings_keep].
  - eexists. split; [reflexivity | apply warnings_keep].
Qed.

Lemma parse_each_spec raw_data : forall acc w,
  exists w',
    parse_each raw_data acc w =
      (inr (acc ++ flat_map (parsed (local_time w (clock w))) raw_data), w') /\
    same_but_warnings w w'.
Proof.
  induction raw_data as [|d rest IH]; intros acc w.
  - exists w. cbn [parse_each flat_map]. rewrite app_nil_r.
    split; [reflexivity | repeat split].
  - cbn [parse_each flat_map]. unfold bind.
    destruct (try_parse_spec d w) as (w1 & Hr & Hk). rewrite Hr.
    destruct Hk as (K1 & K2 & K3 & K4 & K5 & K6). unfold parsed at 1.
    destruct (snd (_parse_data (local_time w (clock w)) d)) as [e|r].
    + destruct (IH acc w1) as (w2 & Hr2 & L1 & L2 & L3 & L4 & L5 & L6).
      exists w2. split; [now rewrite Hr2, K6, K1|].
      repeat split; congruence.
    + destruct (IH (acc ++ [r]) w1) as (w2 & Hr2 & L1 & L2 & L3 & L4 & L5 & L6).
      exists w2. split; [rewrite Hr2, K6, K1; now rewrite <- app_assoc|].
      repeat split; congruence.
Qed.

(** X11: on a seven-bit link a polling turn of [log_data] always returns:
    it reads one frame, and its readings are those of the segments of
    the frame that parse, in order; a segment that does not parse is
    skipped, whatever [ValueError] it raised. The turn writes nothing to
    the device. *)
Theorem poll_skips_bad_lines interval w :
  ascii_link w = true ->
  exists frame w1 w',
    read (with_clock (clock w + Z.to_N (1000 * interval)) w) = (inr frame, w1) /\
    poll interval w =
      (inr (flat_map (parsed (local_time w1 (clock w1))) (split_crlf frame)), w') /\
    same_but_warnings w1 w' /\ ascii_link w' = true /\
    written (trace w') = written (trace w).
Proof.
  intros Ha.
  set (w0 := with_clock (clock w + Z.to_N (1000 * interval)) w).
  destruct (sends_read w0 Ha) as (frame & w1 & Hr & Ha1 & Hw1).
  destruct (parse_each_spec (split_crlf frame) [] w1) as (w' & Hp & Hk).
  exists frame, w1, w'. split; [exact Hr|]. split.
  - unfold poll, bind, sleep. fold w0. rewrite Hr. exact Hp.
  - split; [exact Hk|]. destruct Hk as (K1 & K2 & K3 & K4 & K5 & K6). split.
    + unfold ascii_link in *. now rewrite K3, K4.
    + rewrite K5, Hw1. now rewrite app_nil_r.
Qed.

Lemma poll_skips_bad_lines_witness :
  exists frame w1 w',
    read (with_clock (clock answering_world + Z.to_N (1000 * 1)) answering_world)
      = (inr frame, w1) /\
    poll 1 answering_world =
      (inr (flat_map (parsed (local_time w1 (clock w1))) (split_crlf frame)), w') /\
    same_but_warnings w1 w' /\ ascii_link w' = true /\
    written (trace w') = written (trace answering_world).
Proof.
  apply (poll_skips_bad_lines 1 answering_world). reflexivity.
Defined.

(** ** The history and the files *)

Lemma csv_rows_app a b : csv_rows (a ++ b) = csv_rows a ++ csv_rows b.
Proof. apply map_app. Qed.

Lemma header_of_app a b : a <> [] -> header_of (a ++ b) = header_of a.
Proof. destruct a; [contradiction | reflexivity]. Qed.

Lemma start_files_hold d data tries :
  files_hold_history (start_files (d :: data) tries).
Proof. repeat split. discriminate. Qed.

Lemma collect_step_holds s data_n s' :
  files_hold_history s -> collect_step s data_n = inr s' ->
  files_hold_history s' /\ s_data s' = s_data s ++ data_n.
Proof.
  intros (Hne & Hnpy & Hcsv) Hstep. unfold collect_step in Hstep.
  destruct data_n as [|d data_n].
  - destruct (3 <? s_tries s)%nat; [discriminate|]. inversion Hstep; subst s'.
    cbn [s_data]. rewrite app_nil_r. repeat split; assumption.
  - inversion Hstep; subst s'. cbn [s_data]. split; [|reflexivity].
    repeat split; cbn [s_data npy csv].
    + intros E. apply app_eq_nil in E. destruct E. contradiction.
    + rewrite Hcsv, header_of_app, csv_rows_app by assumption. reflexivity.
Qed.

Lemma run_collecting_holds yields : forall s s',
  files_hold_history s ->
  run (Collecting s) yields = Collecting s' ->
  files_hold_history s' /\ s_data s' = s_data s ++ concat yields.
Proof.
  induction yields as [|y ys IH]; intros s s' Hs Hrun.
  - inversion Hrun; subst s'. cbn [concat]. now rewrite app_nil_r.
  - change (run (Collecting s) (y :: ys))
      with (run (tick (Collecting s) y) ys) in Hrun.
    cbn [tick] in Hrun. destruct (collect_step s y) as [e|s1] eqn:Hstep.
    + rewrite run_stopped in Hrun. discriminate.
    + destruct (collect_step_holds s y s1 Hs Hstep) as [Hs1 Hd1].
      destruct (IH s1 s' Hs1 Hrun) as [Hs' Hd']. split; [exact Hs'|].
      cbn [concat]. now rewrite Hd', Hd1, app_assoc.
Qed.

(** X12: whenever a logging session is collecting, its history is the
    readings of all the polling turns so far, in turn order, none lost,
    doubled or moved; it is not empty; the .npy file holds exactly the
    history, and the .csv file the header of the first reading followed
    by one row per reading of the history. *)
Theorem history_is_all_readings yields : forall tries s,
  run (Priming tries) yields = Collecting s ->
  s_data s = concat yields /\ files_hold_history s.
Proof.
  induction yields as [|y ys IH]; intros tries s Hrun; [discriminate|].
  change (run (Priming tries) (y :: ys))
    with (run (tick (Priming tries) y) ys) in Hrun.
  cbn [tick] in Hrun. unfold prime_step in Hrun.
  destruct (2 <? tries)%nat.
  - rewrite run_stopped in Hrun. discriminate.
  - destruct y as [|d y].
    + cbn [concat app]. exact (IH _ _ Hrun).
    + destruct (run_collecting_holds ys _ s (start_files_hold d y (S tries)) Hrun)
        as [Hs Hd].
      split; [|exact Hs]. rewrite Hd. reflexivity.
Qed.

Lemma history_is_all_readings_witness :
  exists s,
    run (Priming 0) [[]; [sample_reading]; []; [sample_reading; sample_reading]]
      = Collecting s /\
    s_data s = concat [[]; [sample_reading]; []; [sample_reading; sample_reading]] /\
    files_hold_history s.
Proof.
  eexists. split; [reflexivity|].
  apply (history_is_all_readings
           [[]; [sample_reading]; []; [sample_reading; sample_reading]] 0).
  reflexivity.
Defined.

Lemma priming_returns_data budget : forall interval data tries w d t w',
  priming budget interval data tries w = (inr (d, t), w') -> d <> [].
Proof.
  induction budget as [|budget IH]; intros interval data tries w d t w' H;
    destruct data as [|d0 data]; cbn [priming] in H;
    try (inversion H; discriminate).
  unfold bind in H. destruct (poll interval w) as [[f|data_n] w1]; [discriminate|].
  cbn [app] in H. unfold prime_step in H.
  destruct (2 <? tries)%nat; [discriminate|]. exact (IH _ _ _ _ _ _ _ H).
Qed.

(** ** What the patterns capture *)

Lemma substring_prefix pre : forall rest,
  substring 0 (String.length pre) (pre ++ rest) = pre.
Proof.
  induction pre as [|c pre IH]; intros rest; [now destruct rest|].
  cbn [String.length append substring]. now rewrite IH.
Qed.

Lemma length_append_string a b :
  String.length (a ++ b) = (String.length a + String.length b)%nat.
Proof. induction a as [|c a IH]; [reflexivity|]. simpl. now rewrite IH. Qed.

Lemma taken_append pre rest : taken (pre ++ rest) rest = pre.
Proof.
  unfold taken. rewrite length_append_string, Nat.add_sub.
  apply substring_prefix.
Qed.

Lemma star_k_inv {R : Type} p s (k : string -> option R) x :
  star_k p s k = Some x ->
  exists pre rest,
    s = (pre ++ rest)%string /\ all_in p pre = true /\ k rest = Some x.
Proof.
  induction s as [|c s IH]; cbn [star_k]; intros H.
  - exists "", "". auto.
  - destruct (p c) eqn:Hc; [|exists "", (String c s); auto].
    destruct (star_k p s k) as [y|] eqn:Hs; [|exists "", (String c s); auto].
    inversion H; subst y. destruct (IH eq_refl) as (pre & rest & -> & Hp & Hk).
    exists (String c pre), rest. cbn [append all_in]. rewrite Hc. auto.
Qed.

Lemma plus_inv {R : Type} p s g (k : string -> captures -> option R) x :
  mt (Plus p) s g k = Some x ->
  exists pre rest,
    s = (pre ++ rest)%string /\ pre <> "" /\ all_in p pre = true /\
    k rest g = Some x.
Proof.
  cbn [mt]. destruct s as [|c s]; [discriminate|].
  destruct (p c) eqn:Hc; [|discriminate]. intros H.
  apply star_k_inv in H. destruct H as (pre & rest & -> & Hp & Hk).
  exists (String c pre), rest. cbn [append all_in]. rewrite Hc.
  repeat split; auto. discriminate.
Qed.

Lemma chr_inv {R : Type} c s g (k : string -> captures -> option R) x :
  mt (Chr c) s g k = Some x ->
  exists rest, s = String c rest /\ k rest g = Some x.
Proof.
  cbn [mt]. destruct s as [|c' s]; [discriminate|].
  destruct (Ascii.eqb_spec c c'); [|discriminate]. subst c'. eauto.
Qed.

Lemma mt_cat {R : Type} r1 r2 s g (k : string -> captures -> option R) :
  mt (Cat r1 r2) s g k = mt r1 s g (fun s' g' => mt r2 s' g' k).
Proof. reflexivity. Qed.

Lemma mt_group {R : Type} i r s g (k : string -> captures -> option R) :
  mt (Group i r) s g k = mt r s g (fun s' g' => k s' ((i, taken s s') :: g')).
Proof. reflexivity. Qed.

(** A match of the token pattern captures a name, capital letters, and a
    value, made of digits, points and minus signs; neither is empty. *)
Lemma token_inv pos s m :
  re.match_at re_token pos s = Some m ->
  group 1 (m_groups m) <> "" /\
  all_in is_upper (group 1 (m_groups m)) = true /\
  group 2 (m_groups m) <> "" /\
  all_in (fun c => Ascii.eqb c "-" || is_digit c || Ascii.eqb c ".")
         (group 2 (m_groups m)) = true.
Proof.
  unfold re.match_at, re_token. rewrite mt_cat, mt_group. intros H.
  apply plus_inv in H. destruct H as (name & r1 & -> & Hne & Hup & H).
  rewrite taken_append in H. rewrite mt_cat in H.
  apply plus_inv in H. destruct H as (sp1 & r2 & -> & _ & _ & H).
  rewrite mt_cat in H. apply chr_inv in H. destruct H as (r3 & -> & H).
  rewrite mt_cat in H. apply plus_inv in H.
  destruct H as (sp2 & r4 & -> & _ & _ & H).
  rewrite mt_group in H. apply plus_inv in H.
  destruct H as (value & r5 & -> & Hvne & Hval & H).
  rewrite taken_append in H. inversion H; subst m. cbn. auto.
Qed.

Lemma findall_aux_all r (P : string * string -> Prop) :
  (forall pos s m, re.match_at r pos s = Some m ->
                   P (group 1 (m_groups m), group 2 (m_groups m))) ->
  forall s skip, Forall P (re.findall_aux r skip s).
Proof.
  intros HP. induction s as [|c s IH]; intros skip.
  - destruct skip; cbn [re.findall_aux]; [|constructor].
    destruct (re.match_at r 0 "") eqn:E; constructor; eauto.
  - destruct skip; cbn [re.findall_aux]; [|apply IH].
    destruct (re.match_at r 0 (String c s)) eqn:E; [constructor|]; eauto.
Qed.

Lemma search_from_inv r s : forall pos m,
  re.search_from r pos s = Some m ->
  exists pos' s', re.match_at r pos' s' = Some m.
Proof.
  induction s as [|c s IH]; intros pos m; cbn [re.search_from];
    destruct (re.match_at r pos _) eqn:E; intros H;
    try (inversion H; subst; eauto; fail); try discriminate; eauto.
Qed.

(** A match of the status pattern captures capital letters, at least
    one. *)
Lemma status_inv s m :
  re.search re_status s = Some m ->
  group 1 (m_groups m) <> "" /\ all_in is_upper (group 1 (m_groups m)) = true.
Proof.
  intros H. apply search_from_inv in H. destruct H as (pos & s' & H).
  revert H. unfold re.match_at, re_status. rewrite mt_cat, mt_group. intros H.
  apply plus_inv in H. destruct H as (name & r1 & -> & Hne & Hup & H).
  rewrite taken_append in H. rewrite mt_cat in H. cbn [mt] in H.
  apply star_k_inv in H. destruct H as (sp & r2 & -> & _ & H).
  destruct (at_end r2); [|discriminate]. inversion H; subst m. cbn. auto.
Qed.

(** X15: a reading [_parse_data] returns has at least one measurement,
    and each of its names is a non-empty run of capital letters. *)
Theorem reading_names_are_capitals now s w r :
  _parse_data now s = (w, inr r) ->
  measurements r <> [] /\
  Forall (fun name => name <> "" /\ all_in is_upper name = true)
         (measurements r).
Proof.
  unfold _parse_data. destruct (check_lines s) as [w1 [line|]]; [|discriminate].
  destruct (match re.search re_timestamp line with
            | Some m => _ | None => _ end) as [w2 [e|stamp]]; [discriminate|].
  destruct (re.findall re_token line) as [|t ts] eqn:Hts; [discriminate|].
  destruct (collect (t :: ts) [] []) as [e|[names vals]] eqn:Hc; [discriminate|].
  apply collect_spec in Hc. destruct Hc as [Hn _]. cbn [app] in Hn.
  destruct (match re.search re_status line with
            | Some m => _ | None => _ end) as [w3 st].
  intros H. inversion H; clear H. cbn [measurements]. subst names.
  split; [discriminate|].
  assert (Hall : Forall (fun p : string * string =>
                   fst p <> "" /\ all_in is_upper (fst p) = true)
                 (re.findall re_token line)).
  { apply findall_aux_all. intros pos s0 m Hm.
    destruct (token_inv pos s0 m Hm) as (Hname & Hupper & _). auto. }
  rewrite Hts in Hall. apply Forall_forall. intros name Hin.
  apply in_map_iff in Hin. destruct Hin as (p & <- & Hp).
  rewrite Forall_forall in Hall. exact (Hall p Hp).
Qed.

Lemma reading_names_are_capitals_witness :
  measurements sample_reading <> [] /\
  Forall (fun name => name <> "" /\ all_in is_upper name = true)
         (measurements sample_reading).
Proof.
  apply (reading_names_are_capitals noon sample_line [] sample_reading).
  vm_compute. reflexivity.
Defined.

(** X16: the status of a reading [_parse_data] returns is a non-empty
    run of capital letters, UNKNOWN when the line ends with none; and the
    reading comes with a warning about its status exactly when the status
    is not SERVOLOCK. *)
Theorem reading_status_is_flagged now s w r :
  _parse_data now s = (w, inr r) ->
  status r <> "" /\ all_in is_upper (status r) = true /\
  existsb status_warning w = negb (String.eqb (status r) "SERVOLOCK").
Proof.
  unfold _parse_data, check_lines.
  destruct (found (re.search re_crlf s));
    [destruct (select_line (split_crlf s) s) as [line|]; [|discriminate]|];
    (destruct (re.search re_timestamp _) as [m|];
     [destruct (strptime (m_text m)); [|discriminate]|]);
    (destruct (re.findall re_token _) as [|t ts]; [discriminate|]);
    (destruct (collect (t :: ts) [] []) as [e|[names vals]]; [discriminate|]);
    (destruct (re.search re_status _) as [ms|] eqn:Hst;
     [apply status_inv in Hst; destruct Hst as [Hne Hup];
      destruct (String.eqb (group 1 (m_groups ms)) "SERVOLOCK") eqn:He|]);
    intros H; inversion H; clear H; cbn [status];
    try rewrite He; repeat split; auto; discriminate.
Qed.

Lemma reading_status_is_flagged_witness :
  exists w r,
    _parse_data noon bare_token = (w, inr r) /\
    status r <> "" /\ all_in is_upper (status r) = true /\
    existsb status_warning w = negb (String.eqb (status r) "SERVOLOCK").
Proof.
  do 2 eexists. split; [vm_compute; reflexivity|].
  eapply (reading_status_is_flagged noon bare_token).
  vm_compute. reflexivity.
Defined.

(** ** The end of a logging run *)

Lemma collecting_holds ticks : forall d interval t_stop s w s' w',
  files_hold_history s ->
  collecting ticks d interval t_stop s w = (inr s', w') ->
  files_hold_history s' /\ (exists t, t_stop = Some t) /\
  exists more, s_data s' = s_data s ++ more.
Proof.
  induction ticks as [|ticks IH]; intros d interval t_stop s w s' w' Hs H;
    [discriminate|].
  cbn [collecting] in H. unfold bind at 1 in H.
  destruct (poll interval w) as [[f|data_n] w1]; [discriminate|].
  destruct (collect_step s data_n) as [e|s1] eqn:Hstep; [discriminate|].
  destruct (collect_step_holds s data_n s1 Hs Hstep) as [Hs1 Hd1].
  unfold bind at 1 in H.
  destruct (match data_n with [] => ret tt | _ :: _ => write_files d end w1)
    as [[f|x] w2]; [discriminate|].
  assert (Hgo : forall w3, collecting ticks d interval t_stop s1 w3 = (inr s', w') ->
            files_hold_history s' /\ (exists t, t_stop = Some t) /\
            exists more, s_data s' = s_data s ++ more).
  { intros w3 H3. destruct (IH _ _ _ _ _ _ _ Hs1 H3) as (Hs' & Ht & more & Hd').
    split; [exact Hs'|]. split; [exact Ht|]. exists (data_n ++ more).
    now rewrite Hd', Hd1, app_assoc. }
  destruct t_stop as [t|]; [|exact (Hgo _ H)].
  unfold bind, time, ret in H. destruct (clock w2 <? t)%N; [exact (Hgo _ H)|].
  inversion H; subst. split; [exact Hs1|]. split; eauto.
Qed.

(** X13: [log_data] returns only when a total duration was given, and
    whenever it returns the history is not empty, the .npy content is
    exactly the history and the .csv content is the header followed by
    one row per reading of the history, in order. *)
Theorem log_data_files_hold_history d dir_exists interval total ticks w s w' :
  log_data d dir_exists interval total ticks w = (inr s, w') ->
  files_hold_history s /\ exists t, total = Some t.
Proof.
  unfold log_data. destruct (negb dir_exists); [discriminate|].
  unfold bind at 1. destruct (set_output_interval _ w) as [[f|x] w1];
    [discriminate|].
  unfold bind at 1. destruct (priming 4 interval [] 0 w1) as [[f|[dat t]] w2] eqn:Hp;
    [discriminate|].
  apply priming_returns_data in Hp. destruct dat as [|d0 dat]; [contradiction|].
  unfold bind at 1. destruct (write_files d w2) as [[f|y] w3]; [discriminate|].
  cbn [fst snd]. unfold bind at 1.
  destruct total as [total|]; unfold bind, time, ret; intros H;
    destruct (collecting_holds _ _ _ _ _ _ _ _ (start_files_hold d0 dat t) H)
      as (Hh & [t' Ht] & _); [eauto | discriminate].
Qed.

Lemma log_data_files_hold_history_witness :
  exists s w',
    log_data sound_disk true 1 (Some 1%Z) 3 two_lines_world = (inr s, w') /\
    s_data s = [sample_reading; sample_reading] /\
    files_hold_history s /\ exists t, Some 1%Z = Some t.
Proof.
  do 2 eexists. split; [vm_compute; reflexivity|].
  split; [reflexivity|].
  eapply (log_data_files_hold_history sound_disk true 1 (Some 1%Z) 3 two_lines_world).
  vm_compute. reflexivity.
Defined.

Lemma ends_ret {A : Type} (a : A) : ends (ret a).
Proof. intros w. reflexivity. Qed.

Lemma ends_raise {A : Type} e : ends (raise e : M A).
Proof. intros w. reflexivity. Qed.

Lemma ends_warn x : ends (warn x).
Proof. intros w. reflexivity. Qed.

Lemma ends_bind {A B : Type} (m : M A) (f : A -> M B) :
  ends m -> (forall a, ends (f a)) -> ends (bind m f).
Proof.
  intros Hm Hf w. unfold bind. specialize (Hm w).
  destruct (m w) as [[e|a] w1]; [exact Hm | apply Hf].
Qed.

Lemma ends_flush : ends flush.
Proof.
  intros w. destruct (flush_effects w) as (w' & Hr & _). now rewrite Hr.
Qed.

Lemma ends_read : ends read.
Proof.
  intros w. pose proof (read_within_budget w) as H.
  destruct (fst (read w)) as [[e| |]|s]; try reflexivity. now contradiction H.
Qed.

Lemma ends_write command : ends (write command).
Proof.
  induction command as [|c command IH]; intros w; [reflexivity|].
  rewrite write_cons. revert w.
  apply ends_bind; [intros w; reflexivity|]. intros _.
  apply ends_bind; [apply ends_read|]. intros _. exact IH.
Qed.

Lemma ends_set_output_interval interval : ends (set_output_interval interval).
Proof.
  unfold set_output_interval. apply ends_bind.
  - destruct interval as [z|[e|z]]; [apply ends_ret | |];
      (apply ends_bind; [apply ends_warn|]; intros _);
      [apply ends_raise | apply ends_ret].
  - intros n. destruct (n <? 1)%Z; [apply ends_raise|].
    apply ends_bind; [apply ends_flush|]. intros _.
    apply ends_bind; [apply ends_write|]. intros _.
    apply ends_bind; [apply ends_read|]. intros _.
    apply ends_bind; [apply ends_write|]. intros _.
    apply ends_bind; [apply ends_read|]. intros out.
    apply ends_bind; [apply ends_read|]. intros _.
    destruct (re.search re_interval out) as [m|]; [|apply ends_warn].
    destruct (_ =? _)%Z; [apply ends_ret | apply ends_warn].
Qed.

Lemma ends_poll interval : ends (poll interval).
Proof.
  intros w. pose proof (poll_within_budget interval w) as H.
  destruct (fst (poll interval w)) as [[e| |]|r]; try reflexivity.
  now contradiction H.
Qed.

Lemma ends_priming interval : ends (priming 4 interval [] 0).
Proof.
  intros w. pose proof (priming_within_budget 3 interval 0 w) as H.
  destruct (fst (priming 4 interval [] 0 w)) as [[e| |]|r]; try reflexivity.
  exfalso. apply H; [lia | reflexivity].
Qed.

Lemma read_clock w : (clock w <= clock (snd (read w)))%N.
Proof.
  destruct (read_loop_effects (S (N.to_nat (timeout w / 50)))
              (clock w + timeout w)%N 0%nat (record ReadCall w)
              (read_budget_enough w))
    as (frame & to & w' & Hr & _ & _ & Hc & _).
  unfold read, bind.
  change (read_budget w) with (S (S (N.to_nat (timeout w / 50)))).
  rewrite Hr. cbn [fst]. unfold decode_text.
  destruct (decode frame); exact Hc.
Qed.

(** A polling turn lasts its interval at least. *)
Lemma poll_clock interval w r w1 :
  poll interval w = (inr r, w1) ->
  (clock w + Z.to_N (1000 * interval) <= clock w1)%N.
Proof.
  unfold poll, bind, sleep.
  set (w0 := with_clock (clock w + Z.to_N (1000 * interval)) w).
  pose proof (read_clock w0) as Hc.
  destruct (read w0) as [[f|frame] w2]; [discriminate|]. cbn [snd] in Hc.
  destruct (parse_each_spec (split_crlf frame) [] w2) as (w3 & Hp & K1 & _).
  rewrite Hp. intros H. inversion H; subst. rewrite K1. exact Hc.
Qed.

Lemma collecting_ends ticks : forall d interval t s w,
  (t <= clock w + Z.to_N (1000 * interval) * N.of_nat ticks)%N ->
  ran_out (fst (collecting (S ticks) d interval (Some t) s w)) = false.
Proof.
  induction ticks as [|ticks IH]; intros d interval t s w Ht;
    cbn [collecting]; unfold bind at 1;
    pose proof (ends_poll interval w) as Hp;
    destruct (poll interval w) as [[f|data_n] w1] eqn:Hpoll;
    try exact Hp; apply poll_clock in Hpoll;
    (destruct (collect_step s data_n) as [e|s1]; [reflexivity|]);
    unfold bind at 1;
    (assert (Hw : (match data_n with [] => ret tt | _ :: _ => write_files d end) w1
                  = (inr tt, w1) \/
                  exists msg, (match data_n with [] => ret tt
                                             | _ :: _ => write_files d end) w1
                              = (inl (Raise (IOError msg)), w1))
       by (destruct data_n; [left; reflexivity|]; unfold write_files;
           destruct (d (clock w1)); eauto));
    (destruct Hw as [Hw|[msg Hw]]; rewrite Hw; [|reflexivity]);
    unfold bind, time; destruct (clock w1 <? t)%N eqn:Hlt; try reflexivity;
    apply N.ltb_lt in Hlt.
  - lia.
  - apply IH. lia.
Qed.

(** X14: with a total duration, [log_data] ends: it returns or raises
    within [ticks + 1] turns of its collecting loop, as soon as [ticks]
    intervals cover the total. *)
Theorem log_data_ends_by_deadline d dir_exists interval total ticks w :
  (0 <= total <= interval * Z.of_nat ticks)%Z ->
  ran_out (fst (log_data d dir_exists interval (Some total) (S ticks) w)) = false.
Proof.
  intros Ht. revert w. change (ends (log_data d dir_exists interval
                                       (Some total) (S ticks))).
  unfold log_data. destruct (negb dir_exists); [apply ends_raise|].
  apply ends_bind; [apply ends_set_output_interval|]. intros _.
  apply ends_bind; [apply ends_priming|]. intros p.
  apply ends_bind.
  { intros w. unfold write_files. destruct (d (clock w)); reflexivity. }
  intros _ w. unfold bind, time, ret. apply collecting_ends.
  assert (H : (Z.to_N (1000 * total) <=
               Z.to_N (1000 * interval) * N.of_nat ticks)%N) by nia.
  lia.
Qed.

Lemma log_data_ends_by_deadline_witness :
  ran_out (fst (log_data sound_disk true 1 (Some 3%Z) 4 two_lines_world)) = false.
Proof.
  apply (log_data_ends_by_deadline sound_disk true 1 3 3 two_lines_world). lia.
Defined.
